(** * References view: tree controller, provider delegate and input history

    A shallow embedding of [src/tree.ts].  The three classes of the file
    ([TreeDataProviderDelegate], [TreeInputHistory], [SymbolsTree]) become
    records; their methods become functions on a [World], which holds the
    controller object ([this]) together with the part of the JavaScript
    runtime the code relies on ([rt]): the promise heap, the microtask queue,
    the listener registrations of the providers and a few logs of calls into
    the host.

    Everything asynchronous is explicit.  A call of [then] or [catch]
    registers a [Reaction] (the callback, defunctionalised) on a promise of
    the heap; settling a promise turns its reactions into jobs of the
    microtask queue; the event [Tick] runs the oldest job. *)

From stdpp Require Import gmap strings list fin_maps.

Open Scope string_scope.

(** ** Host data *)

(** Object identities (addresses of JavaScript objects, promise handles,
    listener registrations). *)
Abbreviation ref := nat.

Definition Uri := string.

Record Position := mkPosition { line : nat; character : nat }.

Record Range := mkRange { range_start : Position; range_end : Position }.

(** The only regular expression the module passes to the document service:
    [/[^\s]+/]. *)
Inductive RegExp := NonWhitespaceRun.

(** A text document of the host, with the two methods [add] calls. *)
Record TextDocument := mkTextDocument {
  getWordRangeAtPosition : Position -> option RegExp -> option Range;
  getText : Range -> string
}.

(** Modelled from the spec: the class [WordAnchor] of [./history] is not part
    of the sources; the spec describes it as a position tracker created from a
    document and a position and used opaquely, so it is the pair of its
    constructor arguments. *)
Record WordAnchor := mkWordAnchor {
  anchor_doc : TextDocument;
  anchor_position : Position
}.

(** Items shown by a result provider are opaque objects. *)
Definition Item := nat.

Record SymbolItemNavigation := mkNavigation {
  nearest : Uri -> Position -> option Item;
  next : Item -> Item;
  previous : Item -> Item
}.

Record SymbolItemHighlights := mkHighlights {
  getEditorHighlights : Item -> Uri -> option (list Range)
}.

(** A provider object supplied by a resolved model: its identity and whether
    it has a [dispose] function ([typeof provider.dispose === 'function']). *)
Record TreeDataProvider := mkProvider {
  pid : ref;
  has_dispose : bool
}.

Record SymbolTreeModel := mkModel {
  model_message : option string;
  model_provider : TreeDataProvider;
  navigation : option SymbolItemNavigation;
  highlights : option SymbolItemHighlights
}.

(** An input object.  [oid] is the identity of the object: the comparison
    [this._input !== input] of the source is a comparison of [oid]s.  The
    method [hash()] returns the field [hash]; [resolve()] is a call into the
    host and lives in [setInput]. *)
Record SymbolTreeInput := mkInput {
  oid : ref;
  title : string;
  uri : Uri;
  position : Position;
  hash : string
}.

Record HistoryItem := mkHistoryItem {
  word : string;
  anchor : WordAnchor;
  input : SymbolTreeInput
}.

(** ** Promises *)

Definition Error := string.

(** What the delegate can be pointed at: the history store of the controller
    or the provider of a resolved model. *)
Inductive Provider :=
  | HistoryProvider
  | ModelProvider (p : TreeDataProvider).

Inductive Value :=
  | VModel (m : SymbolTreeModel)
  | VProvider (p : Provider)
  | VDocument (d : TextDocument)
  | VHistoryItem (h : HistoryItem)
  | VUndefined.

Inductive Outcome :=
  | Fulfilled (v : Value)
  | Rejected (e : Error).

(** The callbacks the module passes to [then] and [catch].  Each carries the
    variables its closure captures and the promise its [then] returned. *)
Inductive Reaction :=
  | ProviderOf (derived : ref)
      (* setInput: model.then(model => model.provider) *)
  | SetInputThen (input : SymbolTreeInput) (derived : ref)
      (* setInput: model.then(model => { if (this._input !== input) ... }) *)
  | DelegateThen (provider : ref) (derived : ref)
      (* update: provider.then(value => { if (this.provider === provider) ... }) *)
  | DelegateCatch (derived : ref)
      (* update: .catch(err => { this.provider = undefined; ... }) *)
  | HistoryThen (input : SymbolTreeInput) (derived : ref).
      (* add: openTextDocument(input.uri).then(doc => { ... }) *)

(** Where a promise comes from: a call into the host, which the host settles
    later, or the module's own [then], [catch] and [Promise.resolve]. *)
Inductive Source :=
  | ResolveCall (input : SymbolTreeInput)
  | OpenTextDocumentCall (uri : Uri)
  | Chained.

Record Promise := mkPromise {
  source : Source;
  state : option Outcome;        (* None: pending *)
  reactions : list Reaction
}.

(** A job of the microtask queue: a reaction and the outcome it reacts to. *)
Inductive Job := JReact (r : Reaction) (o : Outcome).

(** ** Objects of the module *)

(** Modelled from the spec: the class [ContextKey] of [./models] is not part
    of the sources; the spec describes a named boolean flag that the module
    sets and the host observes.  [ctx_value] is the value last set. *)
Record ContextKey := mkContextKey {
  ctx_name : string;
  ctx_value : option bool
}.

Definition ContextKey_set (value : bool) (k : ContextKey) : ContextKey :=
  {| ctx_name := ctx_name k; ctx_value := Some value |}.

(** A [vscode.EventEmitter]: the identity of its [event] function, how often
    it fired and whether it was disposed. *)
Record EventEmitter := mkEmitter {
  event : ref;
  fired : nat;
  emitter_disposed : bool
}.

(** A [vscode.Disposable] is what its [dispose()] has still to do: the
    listener registrations to remove and the provider objects whose
    [dispose()] to call.  A disposable does its work once: the first call of
    [dispose()] runs it and the object forgets it, so that the object holds
    nothing from then on and a second call does nothing. *)
Inductive Cleanup :=
  | Unsubscribe (s : ref)
  | DisposeProvider (p : TreeDataProvider).

Definition Disposable := list Cleanup.

Definition Disposable_from (ds : list Disposable) : Disposable := concat ds.

(** The object [d] after [d?.dispose()]. *)
Definition disposed_of (d : option Disposable) : option Disposable :=
  match d with
  | Some _ => Some []
  | None => None
  end.

Record TreeDataProviderDelegate := mkDelegate {
  provider : option ref;
  _sessionDispoables : option Disposable;
  _onDidChange : EventEmitter;
  onDidChangeTreeData : ref
}.

Record TreeInputHistory := mkHistory {
  _onDidChangeTreeData : EventEmitter;
  _ctxHasHistory : ContextKey;
  _inputs : list (string * ref)    (* Map<string, Thenable<HistoryItem>>, in insertion order *)
}.

(** The tree view of the host: the properties the module writes and reads. *)
Record TreeView := mkTreeView {
  view_title : option string;
  view_message : option string;
  visible : bool;
  revealed : list Item;
  view_disposed : bool
}.

Record SymbolsTree := mkSymbolsTree {
  _onDidChangeInput : EventEmitter;
  _ctxIsActive : ContextKey;
  _ctxHasResult : ContextKey;
  _history : TreeInputHistory;
  _provider : TreeDataProviderDelegate;
  _tree : TreeView;
  _input : option SymbolTreeInput;
  _sessionDisposable : option Disposable
}.

(** The listeners the module registers with [onDidChangeTreeData] of a
    provider. *)
Inductive Listener :=
  | DelegateFire
      (* update: this._onDidChange.fire, bound to this._onDidChange *)
  | Refresh (input : SymbolTreeInput) (model : SymbolTreeModel).
      (* setInput: () => { title = input.title; message = model.message } *)

Record Subscription := mkSubscription {
  sub_id : ref;
  sub_source : Provider;
  sub_listener : Listener
}.

(** The part of the JavaScript runtime and of the host that the module
    acts on. *)
Record Runtime := mkRuntime {
  heap : gmap ref Promise;
  fresh : ref;                    (* next unused identity *)
  jobs : list Job;                (* microtask queue, oldest first *)
  subs : list Subscription;       (* live listener registrations, oldest first *)
  disposed : list ref;            (* providers whose dispose() was called *)
  console : list Error;           (* console.error *)
  commands : list string          (* vscode.commands.executeCommand *)
}.

Record World := mkWorld {
  this : SymbolsTree;
  rt : Runtime;
  updated : list ref              (* arguments of the calls of update(), oldest first *)
}.

(** ** The promise runtime *)

(** A new promise of the heap, pending ([None]) or already settled. *)
Definition alloc (src : Source) (st : option Outcome) (r : Runtime) : ref * Runtime :=
  (fresh r,
   mkRuntime (<[fresh r := mkPromise src st []]> (heap r)) (S (fresh r))
             (jobs r) (subs r) (disposed r) (console r) (commands r)).

Definition enqueue (js : list Job) (r : Runtime) : Runtime :=
  mkRuntime (heap r) (fresh r) (jobs r ++ js) (subs r) (disposed r)
            (console r) (commands r).

Definition set_heap (h : gmap ref Promise) (r : Runtime) : Runtime :=
  mkRuntime h (fresh r) (jobs r) (subs r) (disposed r) (console r) (commands r).

(** Settling a pending promise schedules one job per registered reaction, in
    the order of registration; a settled promise stays as it is. *)
Definition settle (p : ref) (o : Outcome) (r : Runtime) : Runtime :=
  match heap r !! p with
  | Some pr =>
      match state pr with
      | None =>
          enqueue (map (fun x => JReact x o) (reactions pr))
            (set_heap (<[p := mkPromise (source pr) (Some o) []]> (heap r)) r)
      | Some _ => r
      end
  | None => r
  end.

(** [p.then(callback)] and [p.catch(callback)]: a new pending promise [q];
    the reaction [k q] is registered on [p] when [p] is pending and
    scheduled at once when [p] is settled. *)
Definition promise_then (p : ref) (k : ref -> Reaction) (r : Runtime) : ref * Runtime :=
  let '(q, r) := alloc Chained None r in
  match heap r !! p with
  | Some pr =>
      match state pr with
      | None =>
          (q, set_heap (<[p := mkPromise (source pr) None (reactions pr ++ [k q])]> (heap r)) r)
      | Some o => (q, enqueue [JReact (k q) o] r)
      end
  | None => (q, r)
  end.

(** [Promise.resolve(v)] *)
Definition promise_resolve (v : Value) (r : Runtime) : ref * Runtime :=
  alloc Chained (Some (Fulfilled v)) r.

(** The state of [Promise.all(ps)] as a function of the states of [ps]:
    rejected as soon as one of them is, fulfilled with all values once all
    are fulfilled.  The reason of the rejection is left out. *)
Inductive Aggregate :=
  | AllPending
  | AllFulfilled (vs : list Value)
  | AllRejected.

Definition is_rejected (h : gmap ref Promise) (p : ref) : bool :=
  match h !! p with
  | Some (mkPromise _ (Some (Rejected _)) _) => true
  | _ => false
  end.

Fixpoint fulfilled_values (h : gmap ref Promise) (ps : list ref) : option (list Value) :=
  match ps with
  | [] => Some []
  | p :: ps' =>
      match h !! p with
      | Some (mkPromise _ (Some (Fulfilled v)) _) =>
          match fulfilled_values h ps' with
          | Some vs => Some (v :: vs)
          | None => None
          end
      | _ => None
      end
  end.

Definition promise_all (h : gmap ref Promise) (ps : list ref) : Aggregate :=
  if existsb (is_rejected h) ps then AllRejected
  else match fulfilled_values h ps with
       | Some vs => AllFulfilled vs
       | None => AllPending
       end.

(** ** Listeners and disposables *)

Definition same_provider (a b : Provider) : bool :=
  match a, b with
  | HistoryProvider, HistoryProvider => true
  | ModelProvider p, ModelProvider q => Nat.eqb (pid p) (pid q)
  | _, _ => false
  end.

(** [provider.onDidChangeTreeData(listener)]: registers the listener and
    returns the disposable that removes the registration. *)
Definition subscribe (src : Provider) (l : Listener) (r : Runtime) : Disposable * Runtime :=
  ([Unsubscribe (fresh r)],
   mkRuntime (heap r) (S (fresh r)) (jobs r)
             (subs r ++ [mkSubscription (fresh r) src l])
             (disposed r) (console r) (commands r)).

Definition run_cleanup (r : Runtime) (c : Cleanup) : Runtime :=
  match c with
  | Unsubscribe s =>
      mkRuntime (heap r) (fresh r) (jobs r)
                (filter (fun x => sub_id x <> s) (subs r))
                (disposed r) (console r) (commands r)
  | DisposeProvider p =>
      mkRuntime (heap r) (fresh r) (jobs r) (subs r)
                (disposed r ++ [pid p]) (console r) (commands r)
  end.

Definition dispose (d : Disposable) (r : Runtime) : Runtime :=
  foldl run_cleanup r d.

(** [d?.dispose()], as far as the runtime goes; the object itself is
    [disposed_of d] afterwards. *)
Definition dispose_opt (d : option Disposable) (r : Runtime) : Runtime :=
  match d with
  | Some d => dispose d r
  | None => r
  end.

Definition console_error (err : Error) (r : Runtime) : Runtime :=
  mkRuntime (heap r) (fresh r) (jobs r) (subs r) (disposed r)
            (console r ++ [err]) (commands r).

Definition executeCommand (command : string) (r : Runtime) : Runtime :=
  mkRuntime (heap r) (fresh r) (jobs r) (subs r) (disposed r)
            (console r) (commands r ++ [command]).

(** ** Running the runtime inside a world *)

(** A runtime operation with a result, and one without, run in a world: the
    controller object is not touched. *)
Definition call {A} (f : Runtime -> A * Runtime) (w : World) : A * World :=
  ((f (rt w)).1, mkWorld (this w) (f (rt w)).2 (updated w)).

Definition exec (f : Runtime -> Runtime) (w : World) : World :=
  mkWorld (this w) (f (rt w)) (updated w).

(** ** Field updates of the controller object *)

Definition set_this (f : SymbolsTree -> SymbolsTree) (w : World) : World :=
  mkWorld (f (this w)) (rt w) (updated w).

Definition set__history (f : TreeInputHistory -> TreeInputHistory) : World -> World :=
  set_this (fun t =>
    mkSymbolsTree (_onDidChangeInput t) (_ctxIsActive t) (_ctxHasResult t)
                  (f (_history t)) (_provider t) (_tree t) (_input t)
                  (_sessionDisposable t)).

Definition set__provider (f : TreeDataProviderDelegate -> TreeDataProviderDelegate)
  : World -> World :=
  set_this (fun t =>
    mkSymbolsTree (_onDidChangeInput t) (_ctxIsActive t) (_ctxHasResult t)
                  (_history t) (f (_provider t)) (_tree t) (_input t)
                  (_sessionDisposable t)).

Definition set__tree (f : TreeView -> TreeView) : World -> World :=
  set_this (fun t =>
    mkSymbolsTree (_onDidChangeInput t) (_ctxIsActive t) (_ctxHasResult t)
                  (_history t) (_provider t) (f (_tree t)) (_input t)
                  (_sessionDisposable t)).

Definition set__input (i : option SymbolTreeInput) : World -> World :=
  set_this (fun t =>
    mkSymbolsTree (_onDidChangeInput t) (_ctxIsActive t) (_ctxHasResult t)
                  (_history t) (_provider t) (_tree t) i
                  (_sessionDisposable t)).

Definition set__sessionDisposable (d : option Disposable) : World -> World :=
  set_this (fun t =>
    mkSymbolsTree (_onDidChangeInput t) (_ctxIsActive t) (_ctxHasResult t)
                  (_history t) (_provider t) (_tree t) (_input t) d).

Definition set__ctxIsActive (value : bool) : World -> World :=
  set_this (fun t =>
    mkSymbolsTree (_onDidChangeInput t) (ContextKey_set value (_ctxIsActive t))
                  (_ctxHasResult t) (_history t) (_provider t) (_tree t)
                  (_input t) (_sessionDisposable t)).

Definition set__ctxHasResult (value : bool) : World -> World :=
  set_this (fun t =>
    mkSymbolsTree (_onDidChangeInput t) (_ctxIsActive t)
                  (ContextKey_set value (_ctxHasResult t)) (_history t)
                  (_provider t) (_tree t) (_input t) (_sessionDisposable t)).

Definition set__onDidChangeInput (e : EventEmitter) : World -> World :=
  set_this (fun t =>
    mkSymbolsTree e (_ctxIsActive t) (_ctxHasResult t) (_history t)
                  (_provider t) (_tree t) (_input t) (_sessionDisposable t)).

(** [this._tree.title = t], [this._tree.message = m] *)
Definition set_title (t : option string) : World -> World :=
  set__tree (fun v =>
    mkTreeView t (view_message v) (visible v) (revealed v) (view_disposed v)).

Definition set_message (m : option string) : World -> World :=
  set__tree (fun v =>
    mkTreeView (view_title v) m (visible v) (revealed v) (view_disposed v)).

(** [this._tree.reveal(selection, { select: true, focus: true, expand: true })] *)
Definition reveal (selection : Item) : World -> World :=
  set__tree (fun v =>
    mkTreeView (view_title v) (view_message v) (visible v)
               (revealed v ++ [selection]) (view_disposed v)).

Definition emitter_fire (e : EventEmitter) : EventEmitter :=
  mkEmitter (event e) (S (fired e)) (emitter_disposed e).

Definition emitter_dispose (e : EventEmitter) : EventEmitter :=
  mkEmitter (event e) (fired e) true.

(** ** class TreeDataProviderDelegate *)

Module TreeDataProviderDelegate.

(** [new TreeDataProviderDelegate()]: [onDidChangeTreeData] is the [event]
    of the emitter created with the object. *)
Definition new (e : ref) : TreeDataProviderDelegate :=
  mkDelegate None None (mkEmitter e 0 false) e.

Definition set_provider (p : option ref) : World -> World :=
  set__provider (fun d =>
    mkDelegate p (_sessionDispoables d) (_onDidChange d) (onDidChangeTreeData d)).

Definition set__sessionDispoables (s : option Disposable) : World -> World :=
  set__provider (fun d =>
    mkDelegate (provider d) s (_onDidChange d) (onDidChangeTreeData d)).

(** [this._onDidChange.fire()] *)
Definition fire : World -> World :=
  set__provider (fun d =>
    mkDelegate (provider d) (_sessionDispoables d)
               (emitter_fire (_onDidChange d)) (onDidChangeTreeData d)).

(** [update(provider)]; the argument is called [pending] here, [provider]
    being the field. *)
Definition update (pending : ref) (w : World) : World :=
  let w := mkWorld (this w) (rt w) (updated w ++ [pending]) in
  let w := exec (dispose_opt (_sessionDispoables (_provider (this w)))) w in
  let w := set__sessionDispoables None w in
  let w := fire w in
  let w := set_provider (Some pending) w in
  let '(q, w) := call (promise_then pending (DelegateThen pending)) w in
  let '(_, w) := call (promise_then q DelegateCatch) w in
  w.

(** The callback of [provider.then] in [update]. *)
Definition update_then (pending : ref) (value : Value) (w : World) : World :=
  if decide (provider (_provider (this w)) = Some pending) then
    match value with
    | VProvider v =>
        let '(d, w) := call (subscribe v DelegateFire) w in
        set__sessionDispoables (Some d) w
    | _ => w
    end
  else w.

(** The callback of [.catch] in [update]. *)
Definition update_catch (err : Error) (w : World) : World :=
  let w := set_provider None w in
  exec (console_error err) w.

(** What a call forwarded to the awaited provider asks for. *)
Inductive Call :=
  | CallGetTreeItem (element : Item)
  | CallGetChildren (parent : option Item)
  | CallGetParent (element : Item).

(** The result of an accessor: the error thrown before the first [await],
    or the promise awaited and the call then made on its value. *)
Inductive Access :=
  | Throws (e : Error)
  | Forward (awaited : ref) (call : Call).

Definition _assertProvider (w : World) : option Error :=
  match provider (_provider (this w)) with
  | None => Some "MISSING provider"
  | Some _ => None
  end.

Definition forward (call : Call) (w : World) : Access :=
  match _assertProvider w with
  | Some e => Throws e
  | None =>
      match provider (_provider (this w)) with
      | Some p => Forward p call
      | None => Throws "TypeError"    (* await undefined, then a call on it *)
      end
  end.

Definition getTreeItem (element : Item) (w : World) : Access :=
  forward (CallGetTreeItem element) w.

Definition getChildren (parent : option Item) (w : World) : Access :=
  forward (CallGetChildren parent) w.

Definition getParent (element : Item) (w : World) : Access :=
  forward (CallGetParent element) w.

End TreeDataProviderDelegate.

(** A provider fires its change event: the listeners registered on it run in
    the order of registration. *)
Definition run_listener (w : World) (s : Subscription) : World :=
  match sub_listener s with
  | DelegateFire => TreeDataProviderDelegate.fire w
  | Refresh input model =>
      let w := set_title (Some (title input)) w in
      set_message (model_message model) w
  end.

Definition fire_provider (src : Provider) (w : World) : World :=
  foldl run_listener w
        (filter (fun s => same_provider (sub_source s) src = true) (subs (rt w))).

(** ** class TreeInputHistory *)

(** The two operations of a native [Map] that [add] uses.  [Map.set] keeps
    the position of a key that is present and appends a new key;
    [Map.delete] removes the entry of the key. *)
Fixpoint map_set (key : string) (v : ref) (m : list (string * ref)) : list (string * ref) :=
  match m with
  | [] => [(key, v)]
  | (k, u) :: m' =>
      if decide (k = key) then (k, v) :: m' else (k, u) :: map_set key v m'
  end.

Fixpoint map_delete (key : string) (m : list (string * ref)) : list (string * ref) :=
  match m with
  | [] => []
  | (k, u) :: m' =>
      if decide (k = key) then m' else (k, u) :: map_delete key m'
  end.

Module TreeInputHistory.

Definition new (e : ref) : TreeInputHistory :=
  mkHistory (mkEmitter e 0 false)
            (mkContextKey "reference-list.hasHistory" None) [].

Definition set__inputs (m : list (string * ref)) : World -> World :=
  set__history (fun h =>
    mkHistory (_onDidChangeTreeData h) (_ctxHasHistory h) m).

Definition set__ctxHasHistory (value : bool) : World -> World :=
  set__history (fun h =>
    mkHistory (_onDidChangeTreeData h)
              (ContextKey_set value (_ctxHasHistory h)) (_inputs h)).

(** The callback of [openTextDocument(input.uri).then] in [add]. *)
Definition add_then (input : SymbolTreeInput) (doc : TextDocument) : HistoryItem :=
  let anchor := mkWordAnchor doc (position input) in
  let range :=
    match getWordRangeAtPosition doc (position input) None with
    | Some r => Some r
    | None => getWordRangeAtPosition doc (position input) (Some NonWhitespaceRun)
    end in
  let word :=
    match range with
    | Some r => getText doc r
    | None => "???"
    end in
  mkHistoryItem word anchor input.

Definition add (input : SymbolTreeInput) (w : World) : World :=
  let '(doc, w) := call (alloc (OpenTextDocumentCall (uri input)) None) w in
  let '(p, w) := call (promise_then doc (HistoryThen input)) w in
  let key := hash input in
  let w := set__inputs (map_delete key (_inputs (_history (this w)))) w in
  let w := set__inputs (map_set key p (_inputs (_history (this w)))) w in
  set__ctxHasHistory true w.

Definition clear (w : World) : World :=
  let w := set__inputs [] w in
  let w := set__ctxHasHistory false w in
  let w :=
    set__history (fun h =>
      mkHistory (emitter_fire (_onDidChangeTreeData h)) (_ctxHasHistory h)
                (_inputs h)) w in
  fire_provider HistoryProvider w.

Definition size (w : World) : nat :=
  length (_inputs (_history (this w))).

(** [getChildren()] is [Promise.all] of this list of promises. *)
Definition getChildren (w : World) : list ref :=
  rev (map snd (_inputs (_history (this w)))).

Definition getParent (w : World) : option HistoryItem := None.

End TreeInputHistory.

(** ** class SymbolsTree *)

Module SymbolsTree.

Definition viewId : string := "references-view.tree".

(** [new SymbolsTree()]; [e1], [e2], [e3] are the identities of the [event]
    functions of the three emitters the constructors create. *)
Definition new (e1 e2 e3 : ref) : SymbolsTree :=
  mkSymbolsTree (mkEmitter e1 0 false)
                (mkContextKey "reference-list.isActive" None)
                (mkContextKey "reference-list.hasResult" None)
                (TreeInputHistory.new e2)
                (TreeDataProviderDelegate.new e3)
                (mkTreeView None None false [] false)
                None None.

Definition dispose (w : World) : World :=
  let w :=
    set__tree (fun v =>
      mkTreeView (view_title v) (view_message v) (visible v) (revealed v) true) w in
  set__onDidChangeInput (emitter_dispose (_onDidChangeInput (this w))) w.

Definition getInput (w : World) : option SymbolTreeInput :=
  _input (this w).

(** [this._input !== input], negated *)
Definition is_current (input : SymbolTreeInput) (w : World) : bool :=
  match _input (this w) with
  | Some i => Nat.eqb (oid i) (oid input)
  | None => false
  end.

Definition setInput (input : SymbolTreeInput) (w : World) : World :=
  let w := TreeInputHistory.add input w in
  let w := set__ctxIsActive true w in
  let w := set__ctxHasResult true w in
  let w := exec (executeCommand (viewId ++ ".focus")) w in
  let w := set__input (Some input) w in
  let session := _sessionDisposable (this w) in
  let w := exec (dispose_opt session) w in
  let w := set__sessionDisposable (disposed_of session) w in
  let w := set_title (Some (title input)) w in
  let w := set_message None w in
  let '(model, w) := call (alloc (ResolveCall input) None) w in
  let '(p, w) := call (promise_then model ProviderOf) w in
  let w := TreeDataProviderDelegate.update p w in
  let '(_, w) := call (promise_then model (SetInputThen input)) w in
  w.

(** The callback of the second [model.then] in [setInput]. *)
Definition setInput_then (input : SymbolTreeInput) (model : SymbolTreeModel)
    (w : World) : World :=
  if negb (is_current input w) then w
  else
    let w := set_title (Some (title input)) w in
    let w := set_message (model_message model) w in
    let selection :=
      match navigation model with
      | Some nav => nearest nav (uri input) (position input)
      | None => None
      end in
    let w :=
      match selection with
      | Some s => if visible (_tree (this w)) then reveal s w else w
      | None => w
      end in
    let '(l, w) :=
      call (subscribe (ModelProvider (model_provider model)) (Refresh input model)) w in
    let listener :=
      if has_dispose (model_provider model)
      then [l; [DisposeProvider (model_provider model)]]
      else [l] in
    set__sessionDisposable (Some (Disposable_from listener)) w.

Definition clearInput (w : World) : World :=
  let w := set__input None w in
  let w := set__ctxHasResult false w in
  let w := set_title (Some "References") w in
  let w := set_message None w in
  let '(p, w) := call (promise_resolve (VProvider HistoryProvider)) w in
  let w := TreeDataProviderDelegate.update p w in
  if Nat.eqb (TreeInputHistory.size w) 0
  then set_message (Some "Nothing to show") w
  else w.

End SymbolsTree.

(** ** The event loop *)

(** Running a job: the callback runs on a fulfilled value and its result
    settles the derived promise; [then] passes a rejection on and [catch]
    passes a value on.  A value of the wrong kind cannot reach a callback
    ([host_settle] below checks the kind); the derived promise is rejected
    then. *)
Definition run_job (j : Job) (w : World) : World :=
  match j with
  | JReact (ProviderOf q) (Fulfilled (VModel m)) =>
      exec (settle q (Fulfilled (VProvider (ModelProvider (model_provider m))))) w
  | JReact (SetInputThen input q) (Fulfilled (VModel m)) =>
      exec (settle q (Fulfilled VUndefined)) (SymbolsTree.setInput_then input m w)
  | JReact (DelegateThen pending q) (Fulfilled v) =>
      exec (settle q (Fulfilled VUndefined))
           (TreeDataProviderDelegate.update_then pending v w)
  | JReact (DelegateCatch q) (Fulfilled v) =>
      exec (settle q (Fulfilled v)) w
  | JReact (DelegateCatch q) (Rejected e) =>
      exec (settle q (Fulfilled VUndefined))
           (TreeDataProviderDelegate.update_catch e w)
  | JReact (HistoryThen input q) (Fulfilled (VDocument doc)) =>
      exec (settle q (Fulfilled (VHistoryItem (TreeInputHistory.add_then input doc)))) w
  | JReact (ProviderOf q) (Rejected e)
  | JReact (SetInputThen _ q) (Rejected e)
  | JReact (DelegateThen _ q) (Rejected e)
  | JReact (HistoryThen _ q) (Rejected e) =>
      exec (settle q (Rejected e)) w
  | JReact (ProviderOf q) (Fulfilled _)
  | JReact (SetInputThen _ q) (Fulfilled _)
  | JReact (HistoryThen _ q) (Fulfilled _) =>
      exec (settle q (Rejected "TypeError")) w
  end.

(** The host settles a promise it returned: a model or a rejection for
    [resolve()], a document or a rejection for [openTextDocument]. *)
Definition well_typed (src : Source) (o : Outcome) : bool :=
  match src, o with
  | ResolveCall _, Fulfilled (VModel _) => true
  | OpenTextDocumentCall _, Fulfilled (VDocument _) => true
  | ResolveCall _, Rejected _ => true
  | OpenTextDocumentCall _, Rejected _ => true
  | _, _ => false
  end.

Definition host_settle (p : ref) (o : Outcome) (r : Runtime) : Runtime :=
  match heap r !! p with
  | Some pr => if well_typed (source pr) o then settle p o r else r
  | None => r
  end.

(** The oldest job leaves the queue and runs. *)
Definition tick (w : World) : World :=
  match jobs (rt w) with
  | [] => w
  | j :: js =>
      run_job j
        (exec (fun r =>
           mkRuntime (heap r) (fresh r) js (subs r) (disposed r)
                     (console r) (commands r)) w)
  end.

Inductive Event :=
  | SetInput (input : SymbolTreeInput)      (* tree.setInput(input) *)
  | ClearInput                              (* tree.clearInput(), command references-view.clear *)
  | Dispose                                 (* tree.dispose() *)
  | ClearHistory                            (* command references-view.clearHistory *)
  | Refind (item : HistoryItem)             (* command references-view.refind *)
  | Settle (p : ref) (o : Outcome)          (* the host settles a promise *)
  | Tick                                    (* the oldest microtask runs *)
  | Fire (p : TreeDataProvider)             (* a model's provider fires its change event *)
  | Visible (b : bool).                     (* the view is shown or hidden *)

Definition step (w : World) (e : Event) : World :=
  match e with
  | SetInput input => SymbolsTree.setInput input w
  | ClearInput => SymbolsTree.clearInput w
  | Dispose => SymbolsTree.dispose w
  | ClearHistory => TreeInputHistory.clear w
  | Refind item => SymbolsTree.setInput (input item) w
  | Settle p o => exec (host_settle p o) w
  | Tick => tick w
  | Fire p => fire_provider (ModelProvider p) w
  | Visible b =>
      set__tree (fun v =>
        mkTreeView (view_title v) (view_message v) b (revealed v) (view_disposed v)) w
  end.

Definition run (w : World) (es : list Event) : World := foldl step w es.

(** The world after [new SymbolsTree()]. *)
Definition init : World :=
  mkWorld (SymbolsTree.new 0 1 2) (mkRuntime ∅ 3 [] [] [] [] []) [].

(** A world is reachable when a sequence of events leads to it. *)
Definition reachable (w : World) : Prop := exists es, w = run init es.

(** ** Vocabulary of the statements *)

(** The listener registrations a disposable removes and the providers it
    disposes. *)
Definition cleanup_subs (d : Disposable) : list ref :=
  omap (fun c => match c with Unsubscribe s => Some s | _ => None end) d.

Definition cleanup_providers (d : Disposable) : list ref :=
  omap (fun c => match c with DisposeProvider p => Some (pid p) | _ => None end) d.

(** The view as the user sees it. *)
Definition view_of (w : World) : option string * option string :=
  (view_title (_tree (this w)), view_message (_tree (this w))).

(** The three accessors of the delegate fail with the error of
    [_assertProvider]. *)
Definition accessors_fail (w : World) : Prop :=
  (forall element,
     TreeDataProviderDelegate.getTreeItem element w
     = TreeDataProviderDelegate.Throws "MISSING provider") /\
  (forall parent,
     TreeDataProviderDelegate.getChildren parent w
     = TreeDataProviderDelegate.Throws "MISSING provider") /\
  (forall element,
     TreeDataProviderDelegate.getParent element w
     = TreeDataProviderDelegate.Throws "MISSING provider").

(** The three accessors of the delegate await [p] and forward the call. *)
Definition accessors_forward (p : ref) (w : World) : Prop :=
  (forall element,
     TreeDataProviderDelegate.getTreeItem element w
     = TreeDataProviderDelegate.Forward p
         (TreeDataProviderDelegate.CallGetTreeItem element)) /\
  (forall parent,
     TreeDataProviderDelegate.getChildren parent w
     = TreeDataProviderDelegate.Forward p
         (TreeDataProviderDelegate.CallGetChildren parent)) /\
  (forall element,
     TreeDataProviderDelegate.getParent element w
     = TreeDataProviderDelegate.Forward p
         (TreeDataProviderDelegate.CallGetParent element)).

(** A sequence of [add] calls, and of [update] calls. *)
Definition add_all (inputs : list SymbolTreeInput) (w : World) : World :=
  foldl (fun w i => TreeInputHistory.add i w) w inputs.

Definition update_all (ps : list ref) (w : World) : World :=
  foldl (fun w p => TreeDataProviderDelegate.update p w) w ps.

(** The entries of the history, most recent first (the order of
    [getChildren]). *)
Definition history (w : World) : list (string * ref) :=
  rev (_inputs (_history (this w))).

(** The history the spec describes: a new entry goes to the front and the
    entry with the same key, if there is one, goes away. *)
Definition mru_add (e : string * ref) (l : list (string * ref)) : list (string * ref) :=
  e :: filter (fun x => x.1 <> e.1) l.

Definition mru_keys (hs : list string) (l : list string) : list string :=
  foldl (fun l h => h :: filter (fun k => k <> h) l) l hs.

(** The word the spec describes for a document and a position. *)
Definition word_at (doc : TextDocument) (pos : Position) : string :=
  match getWordRangeAtPosition doc pos None with
  | Some r => getText doc r
  | None =>
      match getWordRangeAtPosition doc pos (Some NonWhitespaceRun) with
      | Some r => getText doc r
      | None => "???"
      end
  end.

(** What the host holds of the delegate: the [onDidChangeTreeData] it read
    when the view was created, and the [event] of the emitter behind it. *)
Definition delegate_event (w : World) : ref * ref :=
  (onDidChangeTreeData (_provider (this w)),
   event (_onDidChange (_provider (this w)))).

(** The promise the delegate holds in its field [provider]. *)
Definition stored_provider (w : World) : option ref :=
  provider (_provider (this w)).

(** The condition the spec gives for the failure of the accessors:
    [update()] was never called, or the promise passed to the most recent
    call of [update()] is rejected. *)
Definition last_update_failed (w : World) : Prop :=
  exists p, last (updated w) = Some p /\ is_rejected (heap (rt w)) p = true.

Definition spec_no_provider (w : World) : Prop :=
  updated w = [] \/ last_update_failed w.

(** The value of the context key [reference-list.isActive]. *)
Definition isActive (w : World) : option bool :=
  ctx_value (_ctxIsActive (this w)).

(** The values of the context keys [reference-list.hasResult] and
    [reference-list.hasHistory]. *)
Definition hasResult (w : World) : option bool :=
  ctx_value (_ctxHasResult (this w)).

Definition hasHistory (w : World) : option bool :=
  ctx_value (_ctxHasHistory (_history (this w))).

(** How often the change event of the delegate fired. *)
Definition delegate_fired (w : World) : nat :=
  fired (_onDidChange (_provider (this w))).

(** The registrations, among [l], of the listener of the delegate. *)
Fixpoint relays (l : list Subscription) : nat :=
  match l with
  | [] => 0
  | s :: l' =>
      match sub_listener s with
      | DelegateFire => S (relays l')
      | Refresh _ _ => relays l'
      end
  end.

(** The registrations on the provider [src]. *)
Definition listeners_of (src : Provider) (w : World) : list Subscription :=
  filter (fun s => same_provider (sub_source s) src = true) (subs (rt w)).

(** Every promise of the heap is older than [fresh]. *)
Definition wf (r : Runtime) : Prop :=
  forall p, fresh r <= p -> heap r !! p = None.

(** ** Sample objects *)

Definition sampleX : SymbolTreeInput :=
  mkInput 100 "References of x" "a.ts" (mkPosition 1 2) "refs:a.ts:1:2".

Definition sampleY : SymbolTreeInput :=
  mkInput 101 "References of y" "b.ts" (mkPosition 3 4) "refs:b.ts:3:4".

Definition sampleProvider : TreeDataProvider := mkProvider 200 true.

Definition sampleModel : SymbolTreeModel :=
  mkModel (Some "3 results") sampleProvider
          (Some (mkNavigation (fun _ _ => Some 7) (fun i => i) (fun i => i)))
          None.

(** A new controller beside two pending promises of the host, [3] and
    [4]. *)
Definition samplePending : World :=
  exec (fun r =>
          (alloc (ResolveCall sampleY) None
             (alloc (ResolveCall sampleX) None r).2).2) init.

(** A document with the text [foo  $$], seen at three positions: inside the
    word, inside the run of [$] and on the blanks between them. *)
Definition sampleDoc : TextDocument :=
  mkTextDocument
    (fun pos re =>
       match re with
       | None =>
           if Nat.ltb (character pos) 3
           then Some (mkRange (mkPosition 0 0) (mkPosition 0 3)) else None
       | Some NonWhitespaceRun =>
           if Nat.ltb (character pos) 3
           then Some (mkRange (mkPosition 0 0) (mkPosition 0 3))
           else if Nat.leb 5 (character pos)
                then Some (mkRange (mkPosition 0 5) (mkPosition 0 7)) else None
       end)
    (fun r => if Nat.eqb (character (range_start r)) 0 then "foo" else "$$").

(** * Proofs *)

Arguments alloc _ _ !_ /.
Arguments enqueue _ !_ /.
Arguments set_heap _ !_ /.
Arguments subscribe _ _ !_ /.
Arguments console_error _ !_ /.
Arguments executeCommand _ !_ /.
Arguments promise_resolve _ !_ /.
Arguments promise_then : simpl never.
Arguments settle : simpl never.
Arguments host_settle : simpl never.
Arguments dispose_opt : simpl never.
Arguments dispose : simpl never.
Arguments fire_provider : simpl never.
Arguments call {_} _ !_ /.
Arguments exec _ !_ /.
Arguments run : simpl never.
Arguments step : simpl never.
Arguments tick : simpl never.
Arguments disposed_of : simpl nomatch.
Arguments SymbolsTree.setInput : simpl never.
Arguments SymbolsTree.clearInput : simpl never.

(** ** The runtime operations on an explicit runtime *)

Lemma dispose_eq d h f j ss ds c cm :
  dispose d (mkRuntime h f j ss ds c cm) =
  mkRuntime h f j (filter (fun s => sub_id s ∉ cleanup_subs d) ss)
            (ds ++ cleanup_providers d) c cm.
Proof.
  revert ss ds. induction d as [|x d IH]; intros ss ds.
  - unfold dispose; cbn. rewrite app_nil_r. f_equal.
    induction ss as [|s l IHl]; [done|].
    rewrite filter_cons_True; [by f_equal | apply not_elem_of_nil].
  - unfold dispose in *. cbn [foldl].
    destruct x as [i|pp]; cbn [run_cleanup]; cbn -[filter]; rewrite IH; f_equal.
    + rewrite list_filter_filter. apply list_filter_iff. intros s0.
      cbn. rewrite elem_of_cons. tauto.
    + by rewrite <- app_assoc.
Qed.

Lemma dispose_opt_eq d h f j ss ds c cm :
  dispose_opt d (mkRuntime h f j ss ds c cm) =
  mkRuntime h f j (filter (fun s => sub_id s ∉ cleanup_subs (default [] d)) ss)
            (ds ++ cleanup_providers (default [] d)) c cm.
Proof. destruct d; cbn [default]; [apply dispose_eq | apply (dispose_eq [])]. Qed.

Lemma promise_then_eq p k h f j ss ds c cm pr :
  h !! p = Some pr -> p <> f ->
  promise_then p k (mkRuntime h f j ss ds c cm) =
  (f, match state pr with
      | None =>
          mkRuntime (<[p := mkPromise (source pr) None (reactions pr ++ [k f])]>
                       (<[f := mkPromise Chained None []]> h))
                    (S f) j ss ds c cm
      | Some o =>
          mkRuntime (<[f := mkPromise Chained None []]> h) (S f)
                    (j ++ [JReact (k f) o]) ss ds c cm
      end).
Proof.
  intros Hp Hne. unfold promise_then. cbn.
  rewrite lookup_insert_ne by done. rewrite Hp. by destruct (state pr).
Qed.

Lemma settle_eq p o h f j ss ds c cm pr :
  h !! p = Some pr ->
  settle p o (mkRuntime h f j ss ds c cm) =
  match state pr with
  | None =>
      mkRuntime (<[p := mkPromise (source pr) (Some o) []]> h) f
                (j ++ map (fun x => JReact x o) (reactions pr)) ss ds c cm
  | Some _ => mkRuntime h f j ss ds c cm
  end.
Proof. intros Hp. unfold settle. cbn. rewrite Hp. by destruct (state pr). Qed.

Lemma host_settle_eq p o h f j ss ds c cm pr :
  h !! p = Some pr ->
  host_settle p o (mkRuntime h f j ss ds c cm) =
  if well_typed (source pr) o then settle p o (mkRuntime h f j ss ds c cm)
  else mkRuntime h f j ss ds c cm.
Proof. intros Hp. unfold host_settle. cbn. by rewrite Hp. Qed.

Lemma run_cons w e es : run w (e :: es) = run (step w e) es.
Proof. reflexivity. Qed.

Lemma run_nil w : run w [] = w.
Proof. reflexivity. Qed.

Lemma run_app w es1 es2 : run w (es1 ++ es2) = run (run w es1) es2.
Proof. apply foldl_app. Qed.

(** With an empty queue a tick does nothing. *)
Lemma run_ticks_idle w n : jobs (rt w) = [] -> run w (repeat Tick n) = w.
Proof.
  intros H. induction n as [|n IH]; [done|].
  cbn [repeat]. rewrite run_cons. unfold step, tick. rewrite H. exact IH.
Qed.

(** ** Symbolic execution

    A world is taken apart into its fields; then events are run one at a
    time, each lookup in the heap being resolved as soon as the heap it looks
    into is explicit. *)

Ltac heap_lookup :=
  repeat first [ rewrite lookup_insert_eq | rewrite lookup_insert_ne by lia ];
  first [ reflexivity | eassumption ].

Ltac destruct_world w :=
  destruct w as [[c_changed c_active c_result [h_changed h_flag h_inputs]
                  [d_provider d_session d_emitter d_event]
                  [v_title v_message v_visible v_revealed v_disposed]
                  c_input c_session]
                 [r_heap r_fresh r_jobs r_subs r_disposed r_console r_commands]
                 w_updated].

Ltac sym1 :=
  first
    [ rewrite dispose_opt_eq
    | erewrite promise_then_eq; [ | heap_lookup | lia ]
    | erewrite settle_eq; [ | heap_lookup ]
    | erewrite host_settle_eq; [ | heap_lookup ]
    | rewrite (proj2 (Nat.eqb_neq _ _))
        by (assumption || (apply not_eq_sym; assumption) || lia)
    | rewrite Nat.eqb_refl
    | rewrite decide_False by (intros [=]; lia)
    | rewrite decide_True by reflexivity
    | match goal with
      | H : ?a = _ |- context [match ?a with _ => _ end] => rewrite H
      end
    | progress cbn
    | progress unfold SymbolsTree.setInput_then, SymbolsTree.is_current,
        TreeDataProviderDelegate.update_then,
        TreeDataProviderDelegate.update_catch ].

Ltac sym := repeat sym1.

Ltac unfold_ops :=
  unfold SymbolsTree.setInput, TreeInputHistory.add,
    TreeDataProviderDelegate.update, SymbolsTree.clearInput.

Ltac run1 :=
  rewrite run_cons;
  unfold step at 1;
  try unfold tick at 1;
  unfold_ops;
  sym.

Ltac eval_run := repeat run1; rewrite ?run_nil.

Ltac eval_term t :=
  let E := fresh "E" in
  eassert (E : t = _) by (eval_run; reflexivity);
  rewrite E; clear E.

(** Evaluates the innermost [run] on an explicit world. *)
Ltac eval_inner :=
  match goal with
  | |- context [run (mkWorld ?t ?r ?u) (?e :: ?l)] =>
      eval_term (run (mkWorld t r u) (e :: l))
  end.

(** One more tick of [repeat Tick n]: either there is none, or it runs. *)
Ltac tick_case n :=
  destruct n as [|n];
  [ cbn [repeat]; rewrite ?run_nil; cbn; repeat split; reflexivity
  | cbn [repeat]; eval_inner ].

(** ** C1: the race guard of [setInput] *)

Ltac close_view := cbn; repeat split; reflexivity.

(** [setInput(x)], [setInput(y)], then the promise of [x.resolve()] settles
    while that of [y.resolve()] is pending. *)
Lemma superseded_before_resolution w x y o n :
  jobs (rt w) = [] ->
  oid x <> oid y ->
  let px := 2 + fresh (rt w) in
  let w2 := run w [SetInput x; SetInput y] in
  let w3 := run w2 (Settle px o :: repeat Tick n) in
  heap (rt w2) !! px
    = Some (mkPromise (ResolveCall x) None
              [ProviderOf (3 + fresh (rt w)); SetInputThen x (6 + fresh (rt w))]) /\
  SymbolsTree.is_current x w2 = false /\
  SymbolsTree.getInput w3 = Some y /\
  view_of w3 = (Some (title y), None) /\
  revealed (_tree (this w3)) = revealed (_tree (this w2)) /\
  _sessionDisposable (this w3) = _sessionDisposable (this w2) /\
  subs (rt w3) = subs (rt w2).
Proof.
  intros Hj Hxy.
  destruct_world w. cbn in Hj. subst.
  cbn zeta. cbn [Nat.add].
  eval_inner.
  split; [cbn; heap_lookup|].
  split; [sym; reflexivity|].
  destruct o as [[m| | | |]|e]; eval_inner;
    try (rewrite run_ticks_idle by reflexivity; close_view).
  - do 4 tick_case n. rewrite run_ticks_idle by reflexivity. close_view.
  - do 4 tick_case n. rewrite run_ticks_idle by reflexivity. close_view.
Qed.

(** The same, the promise of [y.resolve()] being fulfilled with the model
    [my] before that of [x.resolve()] settles. *)
Lemma superseded_after_resolution w x y my o n :
  jobs (rt w) = [] ->
  oid x <> oid y ->
  let px := 2 + fresh (rt w) in
  let py := 9 + fresh (rt w) in
  let w2 :=
    run w [SetInput x; SetInput y; Settle py (Fulfilled (VModel my));
           Tick; Tick; Tick; Tick] in
  let w3 := run w2 (Settle px o :: repeat Tick n) in
  jobs (rt w2) = [] /\
  view_of w2 = (Some (title y), model_message my) /\
  SymbolsTree.getInput w3 = Some y /\
  view_of w3 = (Some (title y), model_message my) /\
  revealed (_tree (this w3)) = revealed (_tree (this w2)) /\
  _sessionDisposable (this w3) = _sessionDisposable (this w2) /\
  subs (rt w3) = subs (rt w2).
Proof.
  intros Hj Hxy.
  destruct_world w. cbn in Hj. subst.
  cbn zeta. cbn [Nat.add].
  destruct my as [msg prov nav hl].
  remember (match nav with
            | Some nv => nearest nv (uri y) (position y)
            | None => None
            end) as sel eqn:Hsel.
  symmetry in Hsel.
  destruct sel as [s|], v_visible.
  all: eval_inner.
  all: split; [reflexivity|]; split; [reflexivity|].
  all: destruct o as [[m| | | |]|e]; eval_inner;
    try (rewrite run_ticks_idle by reflexivity; close_view).
  all: do 4 tick_case n; rewrite run_ticks_idle by reflexivity; close_view.
Qed.

(** C1, as the spec states it, fails when the two calls are given one
    object: [setInput(x)] twice with the same [x], the promise of the second
    [x.resolve()] pending; when the promise of the first is fulfilled with a
    model, the continuation of the first call finds [x] current and shows the
    message of that model. *)
Lemma C1_counterexample :
  ~ (forall (x y : SymbolTreeInput) (o : Outcome) (n : nat),
       let w2 := run init [SetInput x; SetInput y] in
       let w3 := run w2 (Settle 5 o :: repeat Tick n) in
       view_of w3 = (Some (title y), None) /\
       subs (rt w3) = subs (rt w2) /\
       _sessionDisposable (this w3) = _sessionDisposable (this w2)).
Proof.
  intros H.
  specialize (H sampleX sampleX (Fulfilled (VModel sampleModel)) 4).
  cbv zeta in H. destruct H as [H _].
  vm_compute in H. discriminate.
Qed.

(** C1, amended.  After [setInput(x)] and [setInput(y)] for two input
    objects [x] and [y] (no job waiting when the calls are made), let the
    promise [px] that [x.resolve()] returned settle with any outcome [o], and
    let any number [n] of jobs run.  The continuation that [setInput(x)] put
    on [px] finds that [x] is not the current input and does nothing: the
    input is [y], the title is that of [y], nothing is revealed, no listener
    is registered and the session disposable is not replaced.  The message is
    the one [y] left: none while the promise of [y.resolve()] is pending, the
    message of the model [my] once that promise was fulfilled with [my]. *)
Theorem C1_race_guard (w : World) (x y : SymbolTreeInput)
    (my : SymbolTreeModel) (o : Outcome) (n : nat) :
  jobs (rt w) = [] ->
  oid x <> oid y ->
  let px := 2 + fresh (rt w) in
  let py := 9 + fresh (rt w) in
  let w2 := run w [SetInput x; SetInput y] in
  let w3 := run w2 (Settle px o :: repeat Tick n) in
  let v2 :=
    run w [SetInput x; SetInput y; Settle py (Fulfilled (VModel my));
           Tick; Tick; Tick; Tick] in
  let v3 := run v2 (Settle px o :: repeat Tick n) in
  (forall w' m,
     SymbolsTree.is_current x w' = false ->
     SymbolsTree.setInput_then x m w' = w') /\
  heap (rt w2) !! px
    = Some (mkPromise (ResolveCall x) None
              [ProviderOf (3 + fresh (rt w)); SetInputThen x (6 + fresh (rt w))]) /\
  SymbolsTree.is_current x w2 = false /\
  (SymbolsTree.getInput w3 = Some y /\
   view_of w3 = (Some (title y), None) /\
   revealed (_tree (this w3)) = revealed (_tree (this w2)) /\
   _sessionDisposable (this w3) = _sessionDisposable (this w2) /\
   subs (rt w3) = subs (rt w2)) /\
  (view_of v2 = (Some (title y), model_message my) /\
   SymbolsTree.getInput v3 = Some y /\
   view_of v3 = (Some (title y), model_message my) /\
   revealed (_tree (this v3)) = revealed (_tree (this v2)) /\
   _sessionDisposable (this v3) = _sessionDisposable (this v2) /\
   subs (rt v3) = subs (rt v2)).
Proof.
  intros Hj Hxy px py w2 w3 v2 v3.
  pose proof (superseded_before_resolution w x y o n Hj Hxy) as H1.
  pose proof (superseded_after_resolution w x y my o n Hj Hxy) as H2.
  cbv zeta in H1, H2.
  destruct H1 as (Hpx & Hcur & Hrest).
  destruct H2 as (_ & Hrest').
  split.
  { intros w' m H. unfold SymbolsTree.setInput_then. by rewrite H. }
  split; [exact Hpx|]. split; [exact Hcur|]. split; [exact Hrest|exact Hrest'].
Qed.

Lemma C1_race_guard_witness :
  jobs (rt init) = [] /\
  oid sampleX <> oid sampleY /\
  SymbolsTree.getInput
    (run (run init [SetInput sampleX; SetInput sampleY])
         (Settle (2 + fresh (rt init)) (Rejected "cancelled") :: repeat Tick 4))
  = Some sampleY.
Proof.
  split; [reflexivity|]. split; [cbn; lia|].
  pose proof (C1_race_guard init sampleX sampleY sampleModel
                (Rejected "cancelled") 4 eq_refl ltac:(cbn; lia)) as H.
  cbv zeta in H.
  destruct H as (_ & _ & _ & (Hv & _) & _). exact Hv.
Defined.

(** ** C2: the history holds one entry per key, most recent first *)

Lemma promise_then_fst p k r : (promise_then p k r).1 = fresh r.
Proof.
  unfold promise_then, alloc. cbn. repeat case_match; reflexivity.
Qed.

Lemma promise_then_fresh p k r : fresh (promise_then p k r).2 = S (fresh r).
Proof.
  unfold promise_then, alloc. cbn. repeat case_match; reflexivity.
Qed.

Lemma inputs_add i w :
  _inputs (_history (this (TreeInputHistory.add i w)))
  = map_set (hash i) (S (fresh (rt w)))
            (map_delete (hash i) (_inputs (_history (this w)))).
Proof.
  unfold TreeInputHistory.add, call, alloc. cbn. by rewrite promise_then_fst.
Qed.

Lemma fresh_add i w :
  fresh (rt (TreeInputHistory.add i w)) = S (S (fresh (rt w))).
Proof.
  unfold TreeInputHistory.add, call, alloc. cbn. by rewrite promise_then_fresh.
Qed.

Lemma filter_other_keys key (m : list (string * ref)) :
  key ∉ map fst m -> filter (fun x => x.1 <> key) m = m.
Proof.
  induction m as [|[k u] m IH]; [done|].
  cbn [map fst]. rewrite not_elem_of_cons. intros [Hk Hm].
  rewrite filter_cons_True by (cbn; congruence). by rewrite IH.
Qed.

Lemma map_delete_filter key m :
  NoDup (map fst m) -> map_delete key m = filter (fun x => x.1 <> key) m.
Proof.
  induction m as [|[k u] m IH]; [done|].
  cbn [map fst map_delete]. rewrite NoDup_cons. intros [Hk Hm].
  destruct (decide (k = key)) as [->|Hne].
  - rewrite filter_cons_False by (cbn; tauto). by rewrite filter_other_keys.
  - rewrite filter_cons_True by done. by rewrite IH.
Qed.

Lemma map_set_absent key v m :
  key ∉ map fst m -> map_set key v m = (m ++ [(key, v)])%list.
Proof.
  induction m as [|[k u] m IH]; [done|].
  cbn [map fst map_set]. rewrite not_elem_of_cons. intros [Hk Hm].
  rewrite decide_False by congruence. by rewrite IH.
Qed.

Lemma elem_of_keys_filter (P : string * ref -> Prop) `{!forall x, Decision (P x)} k m :
  k ∈ map fst (filter P m) -> k ∈ map fst m.
Proof.
  induction m as [|x m IH]; [done|].
  destruct (decide (P x)).
  - rewrite filter_cons_True by done. cbn [map]. rewrite !elem_of_cons. tauto.
  - rewrite filter_cons_False by done. cbn [map]. rewrite elem_of_cons. tauto.
Qed.

Lemma NoDup_keys_filter (P : string * ref -> Prop) `{!forall x, Decision (P x)} m :
  NoDup (map fst m) -> NoDup (map fst (filter P m)).
Proof.
  induction m as [|x m IH]; [done|].
  cbn [map]. rewrite NoDup_cons. intros [Hx Hm].
  destruct (decide (P x)).
  - rewrite filter_cons_True by done. cbn [map]. rewrite NoDup_cons.
    split; [|by apply IH]. intros Hin. by apply Hx, (elem_of_keys_filter P).
  - rewrite filter_cons_False by done. by apply IH.
Qed.

Lemma key_filtered_out key (m : list (string * ref)) :
  key ∉ map fst (filter (fun x => x.1 <> key) m).
Proof.
  induction m as [|[k u] m IH]; [apply not_elem_of_nil|].
  destruct (decide (k = key)) as [->|Hne].
  - by rewrite filter_cons_False by (cbn; tauto).
  - rewrite filter_cons_True by done. cbn [map fst].
    rewrite not_elem_of_cons. split; [congruence|done].
Qed.

Lemma map_snoc_keys (m : list (string * ref)) e :
  map fst (m ++ [e])%list = (map fst m ++ [e.1])%list.
Proof. induction m as [|x m IH]; [done|]. cbn. by rewrite IH. Qed.

(** On a map with one entry per key, [delete] followed by [set] is: drop the
    entry of the key, append the new one. *)
Lemma map_delete_set key v m :
  NoDup (map fst m) ->
  map_set key v (map_delete key m)
  = (filter (fun x => x.1 <> key) m ++ [(key, v)])%list.
Proof.
  intros Hm. rewrite map_delete_filter by done.
  apply map_set_absent, key_filtered_out.
Qed.

Lemma NoDup_inputs_add i w :
  NoDup (map fst (_inputs (_history (this w)))) ->
  NoDup (map fst (_inputs (_history (this (TreeInputHistory.add i w))))).
Proof.
  intros Hm. rewrite inputs_add, map_delete_set by done.
  rewrite map_snoc_keys. apply NoDup_app. split; [by apply NoDup_keys_filter|].
  split; [|apply NoDup_singleton].
  intros k Hk. rewrite list_elem_of_singleton. intros ->.
  by apply key_filtered_out in Hk.
Qed.

Lemma history_add i w :
  NoDup (map fst (_inputs (_history (this w)))) ->
  history (TreeInputHistory.add i w)
  = mru_add (hash i, S (fresh (rt w))) (history w).
Proof.
  intros Hm. unfold history, mru_add.
  rewrite inputs_add, map_delete_set by done.
  rewrite rev_app_distr. cbn [rev app fst]. f_equal.
  generalize (_inputs (_history (this w))). intros m.
  induction m as [|x m IH]; [done|].
  cbn [rev]. rewrite filter_app.
  destruct (decide (x.1 <> hash i)).
  - rewrite filter_cons_True by done. cbn [rev]. rewrite IH.
    by rewrite (filter_cons_True _ x []) by done.
  - rewrite filter_cons_False by done. rewrite IH.
    rewrite (filter_cons_False _ x []) by done. by rewrite app_nil_r.
Qed.

Lemma NoDup_inputs_add_all inputs w :
  NoDup (map fst (_inputs (_history (this w)))) ->
  NoDup (map fst (_inputs (_history (this (add_all inputs w))))).
Proof.
  revert w. induction inputs as [|i l IH]; intros w Hm; [done|].
  apply IH. by apply NoDup_inputs_add.
Qed.

Lemma keys_history_add_all inputs w :
  NoDup (map fst (_inputs (_history (this w)))) ->
  map fst (history (add_all inputs w))
  = mru_keys (map hash inputs) (map fst (history w)).
Proof.
  revert w. induction inputs as [|i l IH]; intros w Hm; [done|].
  cbn [add_all foldl map mru_keys].
  change (foldl _ ?a l) with (add_all l a) at 1.
  rewrite IH by by apply NoDup_inputs_add.
  unfold mru_keys. f_equal. rewrite history_add by done.
  unfold mru_add. cbn [map fst]. f_equal.
  generalize (history w). intros m.
  induction m as [|x m IHm]; [done|].
  destruct (decide (x.1 <> hash i)).
  - rewrite filter_cons_True by done. cbn [map].
    rewrite filter_cons_True by done. by rewrite IHm.
  - rewrite filter_cons_False by done. cbn [map].
    rewrite filter_cons_False by done. by rewrite IHm.
Qed.

Lemma size_history w : TreeInputHistory.size w = length (history w).
Proof. unfold TreeInputHistory.size, history. by rewrite length_rev. Qed.

(** C2.  Starting from a history with one entry per key (the empty history
    of a new controller is one), after any sequence of [add] calls the
    history still has one entry per key; its keys, most recent first, are
    those obtained by putting each new key in front and dropping its older
    occurrence; [getChildren()] lists the promises of the entries in that
    order, one per entry; and one more [add] puts its promise in front and
    drops the entry that had the same key.  In particular, from the empty
    history, inputs with the hashes [a, b, a, c] give the order [c, a, b], the
    entry of [a] being the promise of the second [add] of [a], and size 3. *)
Theorem C2_history_dedup_mru (w : World) (inputs : list SymbolTreeInput) :
  NoDup (map fst (_inputs (_history (this w)))) ->
  let w' := add_all inputs w in
  NoDup (map fst (_inputs (_history (this w')))) /\
  map fst (history w') = mru_keys (map hash inputs) (map fst (history w)) /\
  TreeInputHistory.getChildren w' = map snd (history w') /\
  length (TreeInputHistory.getChildren w') = TreeInputHistory.size w' /\
  (forall i,
     history (TreeInputHistory.add i w')
     = mru_add (hash i, S (fresh (rt w'))) (history w')) /\
  (forall a b a' c,
     _inputs (_history (this w)) = [] ->
     inputs = [a; b; a'; c] ->
     hash a' = hash a -> hash a <> hash b ->
     hash c <> hash a -> hash c <> hash b ->
     history w'
     = [(hash c, 7 + fresh (rt w)); (hash a, 5 + fresh (rt w));
        (hash b, 3 + fresh (rt w))] /\
     TreeInputHistory.size w' = 3).
Proof.
  intros Hm w'.
  assert (Hm' : NoDup (map fst (_inputs (_history (this w')))))
    by by apply NoDup_inputs_add_all.
  split; [exact Hm'|].
  split; [by apply keys_history_add_all|].
  split; [unfold TreeInputHistory.getChildren, history; by rewrite map_rev|].
  split.
  { unfold TreeInputHistory.getChildren, TreeInputHistory.size.
    by rewrite length_rev, length_map. }
  split; [intros i; by apply history_add|].
  intros a b a' c Hempty -> Ha' Hab Hca Hcb.
  assert (Hh : history w' =
               [(hash c, 7 + fresh (rt w)); (hash a, 5 + fresh (rt w));
                (hash b, 3 + fresh (rt w))]).
  { subst w'. unfold add_all. cbn [foldl].
    rewrite !history_add by (repeat apply NoDup_inputs_add; exact Hm).
    rewrite !fresh_add. unfold history at 1. rewrite Hempty.
    unfold mru_add. cbn [rev fst filter list_filter]. rewrite Ha'.
    rewrite !decide_True by congruence. cbn [filter list_filter fst].
    rewrite !decide_True by congruence.
    rewrite decide_False by (intros Hx; apply Hx; reflexivity).
    cbn [filter list_filter fst]. rewrite ?decide_True by congruence.
    reflexivity. }
  split; [exact Hh|].
  rewrite size_history, Hh. reflexivity.
Qed.

Lemma C2_history_dedup_mru_witness :
  NoDup (map fst (_inputs (_history (this init)))) /\
  map fst (history (add_all [sampleX; sampleY; sampleX] init))
  = mru_keys (map hash [sampleX; sampleY; sampleX]) (map fst (history init)).
Proof.
  assert (H : NoDup (map fst (_inputs (_history (this init)))))
    by apply NoDup_nil_2.
  split; [exact H|].
  exact (proj1 (proj2 (C2_history_dedup_mru init [sampleX; sampleY; sampleX] H))).
Defined.

(** ** C3: the change event of the delegate *)

Lemma delegate_event_update p w :
  delegate_event (TreeDataProviderDelegate.update p w) = delegate_event w.
Proof. reflexivity. Qed.

Lemma delegate_event_run_listener w s :
  delegate_event (run_listener w s) = delegate_event w.
Proof. unfold run_listener. by destruct (sub_listener s). Qed.

Lemma delegate_event_fire_provider src w :
  delegate_event (fire_provider src w) = delegate_event w.
Proof.
  unfold fire_provider.
  generalize (filter (fun s => same_provider (sub_source s) src = true) (subs (rt w))).
  intros l.
  revert w. induction l as [|s l IH]; intros w; [done|].
  cbn [foldl]. by rewrite IH, delegate_event_run_listener.
Qed.

Lemma delegate_event_setInput_then i m w :
  delegate_event (SymbolsTree.setInput_then i m w) = delegate_event w.
Proof.
  unfold SymbolsTree.setInput_then.
  destruct (negb _); [done|].
  destruct (match navigation m with Some _ => _ | None => _ end) as [s|];
    [destruct (visible _)|]; reflexivity.
Qed.

Lemma delegate_event_update_then p v w :
  delegate_event (TreeDataProviderDelegate.update_then p v w) = delegate_event w.
Proof.
  unfold TreeDataProviderDelegate.update_then.
  destruct (decide _); [|done]. by destruct v.
Qed.

Lemma delegate_event_run_job j w :
  delegate_event (run_job j w) = delegate_event w.
Proof.
  destruct j as [[q|i q|p q|q|i q] [v|e]]; try reflexivity;
    try (destruct v; reflexivity).
  - destruct v; try reflexivity. apply delegate_event_setInput_then.
  - apply delegate_event_update_then.
Qed.

Lemma delegate_event_step w e : delegate_event (step w e) = delegate_event w.
Proof.
  destruct e as [i| | | |item|p o| |p|b]; try reflexivity.
  - unfold step, SymbolsTree.clearInput, call. cbv beta iota zeta.
    case_match; reflexivity.
  - unfold step, TreeInputHistory.clear.
    by rewrite delegate_event_fire_provider.
  - unfold step, tick. destruct (jobs (rt w)) as [|j js]; [done|].
    by rewrite delegate_event_run_job.
  - apply delegate_event_fire_provider.
Qed.

Lemma delegate_event_run es w : delegate_event (run w es) = delegate_event w.
Proof.
  revert w. induction es as [|e es IH]; intros w; [done|].
  rewrite run_cons, IH. apply delegate_event_step.
Qed.

Lemma delegate_event_update_all ps w :
  delegate_event (update_all ps w) = delegate_event w.
Proof.
  revert w. induction ps as [|p ps IH]; intros w; [done|].
  cbn [update_all foldl]. change (foldl _ ?a ps) with (update_all ps a).
  by rewrite IH.
Qed.

(** C3.  The [onDidChangeTreeData] of the delegate, and the [event] of the
    emitter it was read from, are the same after any sequence of [update]
    calls and after any sequence of events of the controller; from the
    creation of the controller on the two are one object.  What [update(p)]
    swaps is the stored provider, which is [p] when the call returns. *)
Theorem C3_delegate_identity_stable (w : World) (ps : list ref) (es : list Event) :
  onDidChangeTreeData (_provider (this (update_all ps w)))
  = onDidChangeTreeData (_provider (this w)) /\
  event (_onDidChange (_provider (this (update_all ps w))))
  = event (_onDidChange (_provider (this w))) /\
  onDidChangeTreeData (_provider (this (run w es)))
  = onDidChangeTreeData (_provider (this w)) /\
  onDidChangeTreeData (_provider (this (run init es)))
  = event (_onDidChange (_provider (this (run init es)))) /\
  (forall p ps',
     provider (_provider (this (update_all (ps' ++ [p]) w))) = Some p).
Proof.
  pose proof (delegate_event_update_all ps w) as H1.
  pose proof (delegate_event_run es w) as H2.
  pose proof (delegate_event_run es init) as H3.
  unfold delegate_event in *.
  injection H1 as H1a H1b. injection H2 as H2a H2b. injection H3 as H3a H3b.
  repeat split; try assumption.
  - by rewrite H3a, H3b.
  - intros p ps'. unfold update_all. by rewrite foldl_app.
Qed.

(** ** C4: when the accessors of the delegate fail *)

Lemma fresh_dispose_opt d r : fresh (dispose_opt d r) = fresh r.
Proof. destruct r. by rewrite dispose_opt_eq. Qed.

Lemma stored_provider_update p w :
  stored_provider (TreeDataProviderDelegate.update p w) = Some p.
Proof. reflexivity. Qed.

Lemma stored_provider_run_listener w s :
  stored_provider (run_listener w s) = stored_provider w.
Proof. unfold run_listener. by destruct (sub_listener s). Qed.

Lemma stored_provider_fire_provider src w :
  stored_provider (fire_provider src w) = stored_provider w.
Proof.
  unfold fire_provider.
  generalize (filter (fun s => same_provider (sub_source s) src = true) (subs (rt w))).
  intros l. revert w. induction l as [|s l IH]; intros w; [done|].
  cbn [foldl]. by rewrite IH, stored_provider_run_listener.
Qed.

Lemma stored_provider_setInput_then i m w :
  stored_provider (SymbolsTree.setInput_then i m w) = stored_provider w.
Proof.
  unfold SymbolsTree.setInput_then.
  destruct (negb _); [done|].
  destruct (match navigation m with Some _ => _ | None => _ end) as [s|];
    [destruct (visible _)|]; reflexivity.
Qed.

Lemma stored_provider_update_then p v w :
  stored_provider (TreeDataProviderDelegate.update_then p v w) = stored_provider w.
Proof.
  unfold TreeDataProviderDelegate.update_then.
  destruct (decide _); [|done]. by destruct v.
Qed.

Lemma stored_provider_setInput i w :
  stored_provider (SymbolsTree.setInput i w) = Some (3 + fresh (rt w)).
Proof.
  unfold SymbolsTree.setInput, call, alloc. cbv beta iota zeta.
  unfold stored_provider. cbn -[TreeInputHistory.add].
  rewrite promise_then_fst. cbn -[TreeInputHistory.add].
  rewrite fresh_dispose_opt. unfold executeCommand. cbn [fresh].
  by rewrite fresh_add.
Qed.

Lemma stored_provider_clearInput w :
  stored_provider (SymbolsTree.clearInput w) = Some (fresh (rt w)).
Proof.
  unfold SymbolsTree.clearInput, call. cbv beta iota zeta.
  case_match; reflexivity.
Qed.

(** The stored provider after one job. *)
Lemma stored_provider_run_job j w :
  stored_provider (run_job j w) =
  match j with
  | JReact (DelegateCatch _) (Rejected _) => None
  | _ => stored_provider w
  end.
Proof.
  destruct j as [[q|i q|p q|q|i q] [v|e]]; try reflexivity;
    try (destruct v; reflexivity).
  - destruct v; try reflexivity. apply stored_provider_setInput_then.
  - apply stored_provider_update_then.
Qed.

Lemma stored_provider_step w e :
  stored_provider (step w e) =
  match e, jobs (rt w) with
  | SetInput _, _ | Refind _, _ => Some (3 + fresh (rt w))
  | ClearInput, _ => Some (fresh (rt w))
  | Tick, JReact (DelegateCatch _) (Rejected _) :: _ => None
  | _, _ => stored_provider w
  end.
Proof.
  destruct e as [i| | | |item|p o| |p|b]; try reflexivity.
  - apply stored_provider_setInput.
  - apply stored_provider_clearInput.
  - unfold step, TreeInputHistory.clear.
    by rewrite stored_provider_fire_provider.
  - apply stored_provider_setInput.
  - unfold step, tick. destruct (jobs (rt w)) as [|j js]; [done|].
    rewrite stored_provider_run_job.
    destruct j as [[q|i q|p q|q|i q] [v|e]]; reflexivity.
  - apply stored_provider_fire_provider.
Qed.

Lemma accessors_fail_iff w : accessors_fail w <-> stored_provider w = None.
Proof.
  unfold accessors_fail, stored_provider, TreeDataProviderDelegate.getTreeItem,
    TreeDataProviderDelegate.getChildren, TreeDataProviderDelegate.getParent,
    TreeDataProviderDelegate.forward, TreeDataProviderDelegate._assertProvider.
  destruct (provider (_provider (this w))) as [p|].
  - split; [|done]. intros (_ & H & _). specialize (H None). discriminate.
  - done.
Qed.

Lemma accessors_forward_stored p w :
  stored_provider w = Some p -> accessors_forward p w.
Proof.
  unfold accessors_forward, stored_provider, TreeDataProviderDelegate.getTreeItem,
    TreeDataProviderDelegate.getChildren, TreeDataProviderDelegate.getParent,
    TreeDataProviderDelegate.forward, TreeDataProviderDelegate._assertProvider.
  by intros ->.
Qed.

(** After [setInput(x)], [setInput(y)] and the rejection of the promise of
    [x.resolve()], the accessors fail although [update()] was called and the
    promise of its most recent call is pending, not rejected. *)
Lemma stale_rejection_outside_spec :
  let w := run init [SetInput sampleX; SetInput sampleY;
                     Settle 5 (Rejected "boom"); Tick; Tick; Tick; Tick] in
  accessors_fail w /\
  last (updated w) = Some 13 /\
  heap (rt w) !! 13 = Some (mkPromise Chained None [DelegateThen 13 14]) /\
  ~ spec_no_provider w.
Proof.
  cbv zeta.
  split; [apply accessors_fail_iff; vm_compute; reflexivity|].
  split; [vm_compute; reflexivity|].
  split; [vm_compute; reflexivity|].
  intros [H|(p & Hp & Hr)].
  - vm_compute in H. discriminate.
  - vm_compute in Hp. injection Hp as <-. vm_compute in Hr. discriminate.
Qed.

(** C4.  Each accessor fails with the error of [_assertProvider] if and only
    if no provider is stored when it is called; with [p] stored it awaits [p]
    and forwards the call.  No provider is stored in a new controller; a call
    of [update(p)] stores [p] ([setInput] and the refind command store the
    promise of the provider of the model, [clearInput] the promise of the
    history); every event other than these and the job of a rejection handler
    leaves the stored provider as it is.  The rejection handler of [update]
    clears the stored provider without comparing it with the promise it was
    registered for, which the fulfilment handler does: so the claim fails in
    the state reached by [setInput(x)], [setInput(y)] and the rejection of
    the promise of [x.resolve()], where the accessors fail although the
    promise of the most recent call of [update()] is pending. *)
Theorem C4_missing_provider (w : World) :
  (accessors_fail w <-> stored_provider w = None) /\
  (forall p, stored_provider w = Some p -> accessors_forward p w) /\
  accessors_fail init /\
  (forall p, stored_provider (TreeDataProviderDelegate.update p w) = Some p) /\
  (forall e, stored_provider (TreeDataProviderDelegate.update_catch e w) = None) /\
  (forall p v,
     stored_provider w <> Some p ->
     stored_provider (TreeDataProviderDelegate.update_then p v w) = stored_provider w /\
     TreeDataProviderDelegate.update_then p v w = w) /\
  (forall e,
     stored_provider (step w e) =
     match e, jobs (rt w) with
     | SetInput _, _ | Refind _, _ => Some (3 + fresh (rt w))
     | ClearInput, _ => Some (fresh (rt w))
     | Tick, JReact (DelegateCatch _) (Rejected _) :: _ => None
     | _, _ => stored_provider w
     end) /\
  (let v := run init [SetInput sampleX; SetInput sampleY;
                      Settle 5 (Rejected "boom"); Tick; Tick; Tick; Tick] in
   accessors_fail v /\ ~ spec_no_provider v).
Proof.
  split; [apply accessors_fail_iff|].
  split; [intros p; apply accessors_forward_stored|].
  split; [by apply accessors_fail_iff|].
  split; [intros p; apply stored_provider_update|].
  split; [reflexivity|].
  split.
  { intros p v Hp. unfold TreeDataProviderDelegate.update_then.
    by rewrite decide_False. }
  split; [intros e; apply stored_provider_step|].
  pose proof stale_rejection_outside_spec as H. cbv zeta in H.
  destruct H as (Hf & _ & _ & Hn). cbv zeta. by split.
Qed.

(** ** C5: when the listeners of a session are disposed *)

Ltac unfold_init :=
  unfold init, SymbolsTree.new, TreeInputHistory.new, TreeDataProviderDelegate.new.

(** Membership of a listener in a disposable, both explicit. *)
Ltac mem1 :=
  first [ rewrite (decide_True (P := _ ∉ _)) by compute_done
        | rewrite (decide_False (P := _ ∉ _)) by compute_done ].

Ltac fire1 :=
  rewrite run_cons; unfold step at 1; unfold fire_provider;
  repeat first [ mem1 | sym1 ].

Lemma clearInput_keeps_session x m :
  let p := model_provider m in
  let session :=
    Unsubscribe 10 :: (if has_dispose p then [DisposeProvider p] else []) in
  let w1 :=
    run init [SetInput x; Settle 5 (Fulfilled (VModel m)); Tick; Tick; Tick; Tick] in
  let w2 := run w1 [ClearInput; Tick; Tick] in
  let w3 := run w2 [Fire p] in
  _sessionDisposable (this w1) = Some session /\
  subs (rt w1) = [mkSubscription 10 (ModelProvider p) (Refresh x m);
                  mkSubscription 11 (ModelProvider p) DelegateFire] /\
  SymbolsTree.getInput w2 = None /\
  view_of w2 = (Some "References", None) /\
  _sessionDisposable (this w2) = Some session /\
  subs (rt w2) = [mkSubscription 10 (ModelProvider p) (Refresh x m);
                  mkSubscription 15 HistoryProvider DelegateFire] /\
  disposed (rt w2) = [] /\
  view_of w3 = (Some (title x), model_message m).
Proof.
  destruct m as [msg [pp hd] nav hl].
  cbn zeta. cbn [model_provider has_dispose model_message].
  unfold_init.
  remember (match nav with
            | Some nv => nearest nv (uri x) (position x)
            | None => None
            end) as sel eqn:Hsel.
  symmetry in Hsel.
  destruct sel as [s|], hd.
  all: eval_inner.
  all: split; [reflexivity|]; split; [reflexivity|].
  all: eval_inner.
  all: do 5 (split; [reflexivity|]).
  all: fire1; reflexivity.
Qed.

(** [setInput] removes the listeners of the session and of the delegate
    before it returns. *)
Lemma setInput_disposes i w :
  let session := default [] (_sessionDisposable (this w)) in
  let delegate := default [] (_sessionDispoables (_provider (this w))) in
  subs (rt (SymbolsTree.setInput i w))
  = filter (fun s => sub_id s ∉ cleanup_subs delegate)
      (filter (fun s => sub_id s ∉ cleanup_subs session) (subs (rt w))) /\
  disposed (rt (SymbolsTree.setInput i w))
  = ((disposed (rt w) ++ cleanup_providers session)
       ++ cleanup_providers delegate)%list.
Proof.
  destruct_world w. cbn zeta.
  cbn [this rt _sessionDisposable _provider _sessionDispoables subs disposed].
  unfold_ops. sym. split; reflexivity.
Qed.

(** [clearInput] removes the listener of the delegate only. *)
Lemma clearInput_disposes w :
  let delegate := default [] (_sessionDispoables (_provider (this w))) in
  _sessionDisposable (this (SymbolsTree.clearInput w))
  = _sessionDisposable (this w) /\
  subs (rt (SymbolsTree.clearInput w))
  = filter (fun s => sub_id s ∉ cleanup_subs delegate) (subs (rt w)) /\
  disposed (rt (SymbolsTree.clearInput w))
  = (disposed (rt w) ++ cleanup_providers delegate)%list.
Proof.
  destruct_world w. cbn zeta.
  cbn [this rt _sessionDisposable _provider _sessionDispoables subs disposed].
  unfold_ops. destruct h_inputs; sym; repeat split; reflexivity.
Qed.

(** C5.  [setInput] disposes of the session before it returns: the listeners
    of the session disposable are no longer registered and its providers are
    disposed, whatever the state of the promises.  [clearInput] does not: it
    leaves the session disposable in place, removes no listener but that of
    the delegate and disposes of no provider of the session.  So after
    [setInput(x)], the resolution of [x] with the model [m], and
    [clearInput()], the listener of the session is still registered on the
    provider of [m], that provider is not disposed, and when it fires its
    change event the title and the message of the cleared view become those
    of [x] and [m] again. *)
Theorem C5_session_disposal (w : World) (x : SymbolTreeInput) (m : SymbolTreeModel) :
  let session := default [] (_sessionDisposable (this w)) in
  let delegate := default [] (_sessionDispoables (_provider (this w))) in
  let p := model_provider m in
  let w1 :=
    run init [SetInput x; Settle 5 (Fulfilled (VModel m)); Tick; Tick; Tick; Tick] in
  let w2 := run w1 [ClearInput; Tick; Tick] in
  let w3 := run w2 [Fire p] in
  (subs (rt (SymbolsTree.setInput x w))
   = filter (fun s => sub_id s ∉ cleanup_subs delegate)
       (filter (fun s => sub_id s ∉ cleanup_subs session) (subs (rt w))) /\
   disposed (rt (SymbolsTree.setInput x w))
   = ((disposed (rt w) ++ cleanup_providers session)
        ++ cleanup_providers delegate)%list) /\
  (_sessionDisposable (this (SymbolsTree.clearInput w))
   = _sessionDisposable (this w) /\
   subs (rt (SymbolsTree.clearInput w))
   = filter (fun s => sub_id s ∉ cleanup_subs delegate) (subs (rt w)) /\
   disposed (rt (SymbolsTree.clearInput w))
   = (disposed (rt w) ++ cleanup_providers delegate)%list) /\
  (view_of w2 = (Some "References", None) /\
   mkSubscription 10 (ModelProvider p) (Refresh x m) ∈ subs (rt w2) /\
   disposed (rt w2) = [] /\
   view_of w3 = (Some (title x), model_message m)).
Proof.
  intros session delegate p w1 w2 w3.
  split; [apply setInput_disposes|].
  split; [apply clearInput_disposes|].
  pose proof (clearInput_keeps_session x m) as H. cbv zeta in H.
  destruct H as (_ & _ & _ & Hv & _ & Hs & Hd & Hv').
  split; [exact Hv|]. split; [|split; [exact Hd|exact Hv']].
  subst w2 w1 p. rewrite Hs. apply list_elem_of_here.
Qed.

(** ** C6: what [clearInput] leaves behind *)

(** C6.  After [clearInput()], in any state: there is no current input; the
    flag [hasResult] is false; the title is ['References']; the delegate
    stores a new promise, which is fulfilled with the history, and the job
    that subscribes the delegate to the history is in the queue; the history
    is as it was; the message is ['Nothing to show'] when the history is
    empty and unset when it has an entry. *)
Theorem C6_clearInput_postconditions (w : World) :
  let w' := SymbolsTree.clearInput w in
  let p := fresh (rt w) in
  SymbolsTree.getInput w' = None /\
  ctx_value (_ctxHasResult (this w')) = Some false /\
  view_title (_tree (this w')) = Some "References" /\
  view_message (_tree (this w'))
  = (if Nat.eqb (TreeInputHistory.size w) 0 then Some "Nothing to show" else None) /\
  stored_provider w' = Some p /\
  heap (rt w') !! p
  = Some (mkPromise Chained (Some (Fulfilled (VProvider HistoryProvider))) []) /\
  jobs (rt w')
  = (jobs (rt w)
       ++ [JReact (DelegateThen p (S p)) (Fulfilled (VProvider HistoryProvider))])%list /\
  _history (this w') = _history (this w).
Proof.
  destruct_world w. cbn zeta.
  cbn [this rt fresh jobs _history].
  unfold_ops. destruct h_inputs; sym; repeat split; try reflexivity; heap_lookup.
Qed.

(** ** C7: the word of a history item *)

Lemma world_eta w : w = mkWorld (this w) (rt w) (updated w).
Proof. by destruct w. Qed.

(** Evaluates the call [t] of a method on an explicit world. *)
Ltac eval_call t :=
  let E := fresh "E" in
  eassert (E : t = _)
    by (rewrite (world_eta t); unfold_ops; sym; reflexivity);
  rewrite !E; clear E.

Lemma elem_of_map_set key v m : (key, v) ∈ map_set key v m.
Proof.
  induction m as [|[k u] m IH]; cbn [map_set]; [apply list_elem_of_here|].
  destruct (decide (k = key)) as [->|Hne];
    [apply list_elem_of_here | by apply list_elem_of_further].
Qed.

Lemma add_then_word i doc :
  word (TreeInputHistory.add_then i doc) = word_at doc (position i).
Proof.
  unfold TreeInputHistory.add_then, word_at. cbn [word].
  by destruct (getWordRangeAtPosition doc (position i) None).
Qed.

(** [add(input)], then the document opens: the promise stored in the history
    is fulfilled with the item made from the document. *)
Lemma add_then_settles w i doc :
  jobs (rt w) = [] ->
  let d := fresh (rt w) in
  let w' :=
    run (TreeInputHistory.add i w) [Settle d (Fulfilled (VDocument doc)); Tick] in
  heap (rt (TreeInputHistory.add i w)) !! d
  = Some (mkPromise (OpenTextDocumentCall (uri i)) None [HistoryThen i (S d)]) /\
  heap (rt w') !! S d
  = Some (mkPromise Chained
            (Some (Fulfilled (VHistoryItem (TreeInputHistory.add_then i doc)))) []).
Proof.
  intros Hj. destruct_world w. cbn in Hj. subst.
  cbn zeta. cbn [rt fresh].
  match goal with
  | |- context [TreeInputHistory.add i ?w] => eval_call (TreeInputHistory.add i w)
  end.
  split; [cbn; heap_lookup|].
  eval_inner. cbn. heap_lookup.
Qed.

(** C7.  [add(input)] opens the document of the input; when the document
    [doc] arrives, the promise stored in the history under the hash of the
    input is fulfilled with an item for that input, anchored at its position,
    whose word is: the text of the default word range at the position if
    there is one; otherwise the text of the range of the non-whitespace run
    at the position if there is one; otherwise ["???"]. *)
Theorem C7_word_fallback (w : World) (i : SymbolTreeInput) (doc : TextDocument) :
  jobs (rt w) = [] ->
  let pos := position i in
  let d := fresh (rt w) in
  let item := TreeInputHistory.add_then i doc in
  let w' :=
    run (TreeInputHistory.add i w) [Settle d (Fulfilled (VDocument doc)); Tick] in
  (hash i, S d) ∈ _inputs (_history (this (TreeInputHistory.add i w))) /\
  heap (rt w') !! S d
  = Some (mkPromise Chained (Some (Fulfilled (VHistoryItem item))) []) /\
  input item = i /\
  anchor item = mkWordAnchor doc pos /\
  word item = word_at doc pos /\
  (forall r,
     getWordRangeAtPosition doc pos None = Some r ->
     word item = getText doc r) /\
  (forall r,
     getWordRangeAtPosition doc pos None = None ->
     getWordRangeAtPosition doc pos (Some NonWhitespaceRun) = Some r ->
     word item = getText doc r) /\
  (getWordRangeAtPosition doc pos None = None ->
   getWordRangeAtPosition doc pos (Some NonWhitespaceRun) = None ->
   word item = "???").
Proof.
  intros Hj pos d item w'.
  split; [rewrite inputs_add; apply elem_of_map_set|].
  split; [apply (add_then_settles w i doc Hj)|].
  split; [reflexivity|]. split; [reflexivity|].
  split; [apply add_then_word|].
  subst item pos. unfold TreeInputHistory.add_then. cbn [word].
  split; [by intros r ->|].
  split; [by intros r -> ->|by intros -> ->].
Qed.

Lemma C7_word_fallback_witness :
  jobs (rt init) = [] /\
  word (TreeInputHistory.add_then sampleY sampleDoc)
  = word_at sampleDoc (position sampleY).
Proof.
  split; [reflexivity|].
  pose proof (C7_word_fallback init sampleY sampleDoc eq_refl) as H.
  cbv zeta in H.
  exact (proj1 (proj2 (proj2 (proj2 (proj2 H))))).
Defined.

(** ** C8: a rejection that arrives late *)

(** The callback of [then] in [update] does nothing unless the promise it
    was registered for is the stored one. *)
Lemma update_then_stale p v w :
  stored_provider w <> Some p ->
  TreeDataProviderDelegate.update_then p v w = w.
Proof.
  intros H. unfold TreeDataProviderDelegate.update_then.
  by rewrite decide_False.
Qed.

Lemma stale_rejection w p1 p2 s1 s2 e v :
  jobs (rt w) = [] ->
  heap (rt w) !! p1 = Some (mkPromise s1 None []) ->
  heap (rt w) !! p2 = Some (mkPromise s2 None []) ->
  p1 <> p2 -> p1 < fresh (rt w) -> p2 < fresh (rt w) ->
  let w2 := update_all [p1; p2] w in
  let w3 := run (exec (settle p1 (Rejected e)) w2) [Tick; Tick] in
  let w4 := run (exec (settle p2 (Fulfilled (VProvider v))) w3) [Tick; Tick] in
  stored_provider w2 = Some p2 /\
  stored_provider w3 = None /\
  console (rt w3) = (console (rt w) ++ [e])%list /\
  heap (rt w3) !! p2
  = Some (mkPromise s2 None [DelegateThen p2 (2 + fresh (rt w))]) /\
  jobs (rt w3) = [] /\
  stored_provider w4 = None /\
  _sessionDispoables (_provider (this w4)) = None /\
  subs (rt w4) = subs (rt w3) /\
  jobs (rt w4) = [].
Proof.
  intros Hj H1 H2 Hne Hlt1 Hlt2.
  destruct_world w. cbn in Hj, H1, H2, Hlt1, Hlt2. subst.
  cbn zeta. cbn [rt fresh console Nat.add]. unfold update_all. cbn [foldl].
  match goal with
  | |- context [TreeDataProviderDelegate.update p1 ?w] =>
      eval_call (TreeDataProviderDelegate.update p1 w)
  end.
  match goal with
  | |- context [TreeDataProviderDelegate.update p2 ?w] =>
      eval_call (TreeDataProviderDelegate.update p2 w)
  end.
  split; [reflexivity|].
  match goal with
  | |- context [exec (settle p1 ?o) ?w] => eval_call (exec (settle p1 o) w)
  end.
  eval_inner.
  split; [reflexivity|]. split; [reflexivity|].
  split; [cbn; heap_lookup|]. split; [reflexivity|].
  match goal with
  | |- context [exec (settle p2 ?o) ?w] => eval_call (exec (settle p2 o) w)
  end.
  eval_inner.
  repeat split; reflexivity.
Qed.

Lemma two_pending :
  jobs (rt samplePending) = [] /\
  heap (rt samplePending) !! 3 = Some (mkPromise (ResolveCall sampleX) None []) /\
  heap (rt samplePending) !! 4 = Some (mkPromise (ResolveCall sampleY) None []) /\
  3 <> 4 /\ 3 < fresh (rt samplePending) /\ 4 < fresh (rt samplePending).
Proof. unfold samplePending, init. cbn. repeat split; try lia; heap_lookup. Qed.

(** C8.  The rejection handler of [update] clears the stored provider
    without a check, whereas the fulfilment handler does nothing for a
    promise that is not the stored one.  So after [update(p1)],
    [update(p2)] and the rejection of [p1] (two jobs later) no provider is
    stored, the accessors fail with the error of [_assertProvider] and the
    error is logged, although [p2] is pending; and when [p2] is then
    fulfilled the accessors still fail and the delegate subscribes to
    nothing. *)
Theorem C8_stale_rejection_clobbers (w : World) (p1 p2 : ref) (s1 s2 : Source)
    (e : Error) (v : Provider) :
  jobs (rt w) = [] ->
  heap (rt w) !! p1 = Some (mkPromise s1 None []) ->
  heap (rt w) !! p2 = Some (mkPromise s2 None []) ->
  p1 <> p2 -> p1 < fresh (rt w) -> p2 < fresh (rt w) ->
  let w2 := update_all [p1; p2] w in
  let w3 := run (exec (settle p1 (Rejected e)) w2) [Tick; Tick] in
  let w4 := run (exec (settle p2 (Fulfilled (VProvider v))) w3) [Tick; Tick] in
  (forall w' e', stored_provider (TreeDataProviderDelegate.update_catch e' w') = None) /\
  (forall w' p v',
     stored_provider w' <> Some p ->
     TreeDataProviderDelegate.update_then p v' w' = w') /\
  accessors_forward p2 w2 /\
  accessors_fail w3 /\
  console (rt w3) = (console (rt w) ++ [e])%list /\
  heap (rt w3) !! p2
  = Some (mkPromise s2 None [DelegateThen p2 (2 + fresh (rt w))]) /\
  accessors_fail w4 /\
  subs (rt w4) = subs (rt w3).
Proof.
  intros Hj H1 H2 Hne Hlt1 Hlt2 w2 w3 w4.
  pose proof (stale_rejection w p1 p2 s1 s2 e v Hj H1 H2 Hne Hlt1 Hlt2) as H.
  cbv zeta in H.
  destruct H as (Hp2 & Hp3 & Hc & Hh & _ & Hp4 & _ & Hs & _).
  split; [reflexivity|].
  split; [intros w' p v'; apply update_then_stale|].
  split; [by apply accessors_forward_stored|].
  split; [by apply accessors_fail_iff|].
  split; [exact Hc|]. split; [exact Hh|].
  split; [by apply accessors_fail_iff|exact Hs].
Qed.

Lemma C8_stale_rejection_clobbers_witness :
  accessors_fail
    (run (exec (settle 3 (Rejected "boom")) (update_all [3; 4] samplePending))
         [Tick; Tick]).
Proof.
  destruct two_pending as (Hj & H1 & H2 & Hne & Hlt1 & Hlt2).
  pose proof (C8_stale_rejection_clobbers samplePending 3 4 _ _ "boom"
                HistoryProvider Hj H1 H2 Hne Hlt1 Hlt2) as H.
  cbv zeta in H.
  exact (proj1 (proj2 (proj2 (proj2 H)))).
Defined.

(** ** C9: a rejected entry of the history *)

Lemma promise_all_rejected h ps :
  promise_all h ps = AllRejected <-> exists p, p ∈ ps /\ is_rejected h p = true.
Proof.
  unfold promise_all.
  assert (He : existsb (is_rejected h) ps = true
               <-> exists p, p ∈ ps /\ is_rejected h p = true).
  { induction ps as [|q ps IH]; cbn [existsb].
    - split; [done|]. intros (p & Hp & _). by apply elem_of_nil in Hp.
    - rewrite orb_true_iff, IH. split.
      + intros [Hq|(p & Hp & Hr)].
        * exists q. split; [apply list_elem_of_here|done].
        * exists p. split; [by apply list_elem_of_further|done].
      + intros (p & Hp & Hr). apply elem_of_cons in Hp as [->|Hp];
          [by left | right; by exists p]. }
  destruct (existsb (is_rejected h) ps).
  - split; [intros _; by apply He | done].
  - split; [|intros H; by apply He in H].
    by destruct (fulfilled_values h ps).
Qed.

Lemma elem_of_rev {A} (x : A) l : x ∈ rev l <-> x ∈ l.
Proof.
  induction l as [|y l IH]; [done|].
  cbn [rev]. rewrite elem_of_app, IH, list_elem_of_singleton, elem_of_cons. tauto.
Qed.

Lemma elem_of_getChildren w key p :
  (key, p) ∈ _inputs (_history (this w)) -> p ∈ TreeInputHistory.getChildren w.
Proof.
  intros H. unfold TreeInputHistory.getChildren.
  apply elem_of_rev. generalize dependent (_inputs (_history (this w))).
  intros m. induction m as [|[k u] m IH]; intros H.
  - by apply elem_of_nil in H.
  - cbn [map snd]. apply elem_of_cons in H as [[= -> ->]|H];
      [apply list_elem_of_here | by apply list_elem_of_further, IH].
Qed.

(** [add(input)], then the document fails to open: the promise stored in the
    history is rejected and stays where it is. *)
Lemma add_then_rejects w i e :
  jobs (rt w) = [] ->
  let d := fresh (rt w) in
  let w' := run (TreeInputHistory.add i w) [Settle d (Rejected e); Tick] in
  heap (rt w') !! S d = Some (mkPromise Chained (Some (Rejected e)) []) /\
  _inputs (_history (this w')) = _inputs (_history (this (TreeInputHistory.add i w))).
Proof.
  intros Hj. destruct_world w. cbn in Hj. subst.
  cbn zeta. cbn [rt fresh].
  match goal with
  | |- context [TreeInputHistory.add i ?w] => eval_call (TreeInputHistory.add i w)
  end.
  eval_inner. split; [cbn; heap_lookup|reflexivity].
Qed.

(** C9.  When the document of [add(input)] fails to open, the promise stored
    in the history under the hash of the input is rejected; the entry stays
    in the map and counts in [size].  In any state whatever, [getChildren()]
    of the history, which is [Promise.all] of the stored promises, is
    rejected exactly when one of them is: so it is after the failure, and
    for as long as a rejected entry is in the map. *)
Theorem C9_failed_entry_poisons (w : World) (i : SymbolTreeInput) (e : Error) :
  jobs (rt w) = [] ->
  let d := fresh (rt w) in
  let w' := run (TreeInputHistory.add i w) [Settle d (Rejected e); Tick] in
  heap (rt w') !! S d = Some (mkPromise Chained (Some (Rejected e)) []) /\
  (hash i, S d) ∈ _inputs (_history (this w')) /\
  TreeInputHistory.size w' = TreeInputHistory.size (TreeInputHistory.add i w) /\
  1 <= TreeInputHistory.size w' /\
  promise_all (heap (rt w')) (TreeInputHistory.getChildren w') = AllRejected /\
  (forall v,
     promise_all (heap (rt v)) (TreeInputHistory.getChildren v) = AllRejected
     <-> exists key p,
           (key, p) ∈ _inputs (_history (this v)) /\
           is_rejected (heap (rt v)) p = true).
Proof.
  intros Hj d w'.
  pose proof (add_then_rejects w i e Hj) as H. cbv zeta in H.
  destruct H as [Hh Hi]. fold d in Hh, Hi. fold w' in Hh, Hi.
  clearbody w'.
  assert (Hin : (hash i, S d) ∈ _inputs (_history (this w'))).
  { rewrite Hi, inputs_add. apply elem_of_map_set. }
  assert (Hr : is_rejected (heap (rt w')) (S d) = true)
    by (unfold is_rejected; by rewrite Hh).
  split; [exact Hh|]. split; [exact Hin|].
  split; [unfold TreeInputHistory.size; by rewrite Hi|].
  split.
  { unfold TreeInputHistory.size.
    destruct (_inputs (_history (this w'))); [by apply elem_of_nil in Hin|cbn; lia]. }
  split.
  { apply promise_all_rejected. exists (S d).
    split; [by apply (elem_of_getChildren w' (hash i))|done]. }
  intros v. rewrite promise_all_rejected. split.
  - intros (p & Hp & Hrej). unfold TreeInputHistory.getChildren in Hp.
    rewrite elem_of_rev in Hp.
    generalize dependent (_inputs (_history (this v))). intros m.
    induction m as [|[k u] m IH]; cbn [map snd]; intros Hp.
    + by apply elem_of_nil in Hp.
    + apply elem_of_cons in Hp as [->|Hp].
      * exists k, u. split; [apply list_elem_of_here|done].
      * destruct (IH Hp) as (k' & p' & Hin' & Hr').
        exists k', p'. split; [by apply list_elem_of_further|done].
  - intros (key & p & Hp & Hrej). exists p.
    split; [by apply (elem_of_getChildren v key)|done].
Qed.

Lemma C9_failed_entry_poisons_witness :
  jobs (rt init) = [] /\
  promise_all
    (heap (rt (run (TreeInputHistory.add sampleX init)
                   [Settle (fresh (rt init)) (Rejected "ENOENT"); Tick])))
    (TreeInputHistory.getChildren
       (run (TreeInputHistory.add sampleX init)
            [Settle (fresh (rt init)) (Rejected "ENOENT"); Tick]))
  = AllRejected.
Proof.
  split; [reflexivity|].
  pose proof (C9_failed_entry_poisons init sampleX "ENOENT" eq_refl) as H.
  cbv zeta in H.
  exact (proj1 (proj2 (proj2 (proj2 (proj2 H))))).
Defined.

(** ** C10: the flag [isActive] *)

Lemma isActive_run_listener w s : isActive (run_listener w s) = isActive w.
Proof. unfold run_listener. by destruct (sub_listener s). Qed.

Lemma isActive_fire_provider src w : isActive (fire_provider src w) = isActive w.
Proof.
  unfold fire_provider.
  generalize (filter (fun s => same_provider (sub_source s) src = true) (subs (rt w))).
  intros l. revert w. induction l as [|s l IH]; intros w; [done|].
  cbn [foldl]. by rewrite IH, isActive_run_listener.
Qed.

Lemma isActive_setInput_then i m w :
  isActive (SymbolsTree.setInput_then i m w) = isActive w.
Proof.
  unfold SymbolsTree.setInput_then.
  destruct (negb _); [done|].
  destruct (match navigation m with Some _ => _ | None => _ end) as [s|];
    [destruct (visible _)|]; reflexivity.
Qed.

Lemma isActive_update_then p v w :
  isActive (TreeDataProviderDelegate.update_then p v w) = isActive w.
Proof.
  unfold TreeDataProviderDelegate.update_then.
  destruct (decide _); [|done]. by destruct v.
Qed.

Lemma isActive_run_job j w : isActive (run_job j w) = isActive w.
Proof.
  destruct j as [[q|i q|p q|q|i q] [v|e]]; try reflexivity;
    try (destruct v; reflexivity).
  - destruct v; try reflexivity. apply isActive_setInput_then.
  - apply isActive_update_then.
Qed.

Lemma isActive_setInput i w : isActive (SymbolsTree.setInput i w) = Some true.
Proof. reflexivity. Qed.

Lemma isActive_clearInput w :
  _ctxIsActive (this (SymbolsTree.clearInput w)) = _ctxIsActive (this w).
Proof.
  unfold SymbolsTree.clearInput, call. cbv beta iota zeta.
  case_match; reflexivity.
Qed.

Lemma isActive_step w e :
  isActive (step w e) =
  match e with
  | SetInput _ | Refind _ => Some true
  | _ => isActive w
  end.
Proof.
  destruct e as [i| | | |item|p o| |p|b]; try reflexivity.
  - unfold step, isActive. by rewrite isActive_clearInput.
  - unfold step, TreeInputHistory.clear. by rewrite isActive_fire_provider.
  - unfold step, tick. destruct (jobs (rt w)) as [|j js]; [done|].
    by rewrite isActive_run_job.
  - apply isActive_fire_provider.
Qed.

Lemma isActive_run es w :
  isActive (run w es) = isActive w \/ isActive (run w es) = Some true.
Proof.
  revert w. induction es as [|e es IH]; intros w; [by left|].
  rewrite run_cons. destruct (IH (step w e)) as [H|H]; [|by right].
  rewrite H, isActive_step. destruct e; auto.
Qed.

(** C10.  [setInput] sets the flag [isActive] to true; [clearInput] leaves
    the context key as it is; an event sets the flag to true if it is a call
    of [setInput] (directly or by the refind command) and leaves it as it is
    otherwise.  Hence no sequence of events makes a true flag anything but
    true, and from the creation of the controller on the flag is never
    false. *)
Theorem C10_isActive_never_reset (w : World) (es : list Event) :
  (forall i, isActive (SymbolsTree.setInput i w) = Some true) /\
  _ctxIsActive (this (SymbolsTree.clearInput w)) = _ctxIsActive (this w) /\
  (forall e,
     isActive (step w e) =
     match e with
     | SetInput _ | Refind _ => Some true
     | _ => isActive w
     end) /\
  (isActive w = Some true -> isActive (run w es) = Some true) /\
  (forall i es', isActive (run w (es' ++ SetInput i :: es)) = Some true) /\
  isActive (run init es) <> Some false.
Proof.
  split; [intros i; apply isActive_setInput|].
  split; [apply isActive_clearInput|].
  split; [intros e; apply isActive_step|].
  split; [intros H; destruct (isActive_run es w) as [H'|H']; congruence|].
  split.
  - intros i es'. rewrite run_app, run_cons.
    destruct (isActive_run es (step (run w es') (SetInput i))) as [H'|H'];
      [by rewrite H', isActive_step | done].
  - destruct (isActive_run es init) as [H'|H']; rewrite H'; discriminate.
Qed.

(** * Further properties of the module *)

(** ** What jobs, provider events and the host leave alone

    A field of the controller that does not depend on the view, on the
    delegate or on the session disposable changes only in the calls of the
    methods of the controller and of the history. *)

Section frame.

Context {A : Type} (f : SymbolsTree -> A).

Hypothesis f_tree : forall t v,
  f (mkSymbolsTree (_onDidChangeInput t) (_ctxIsActive t) (_ctxHasResult t)
       (_history t) (_provider t) v (_input t) (_sessionDisposable t)) = f t.

Hypothesis f_provider : forall t d,
  f (mkSymbolsTree (_onDidChangeInput t) (_ctxIsActive t) (_ctxHasResult t)
       (_history t) d (_tree t) (_input t) (_sessionDisposable t)) = f t.

Hypothesis f_session : forall t s,
  f (mkSymbolsTree (_onDidChangeInput t) (_ctxIsActive t) (_ctxHasResult t)
       (_history t) (_provider t) (_tree t) (_input t) s) = f t.

Lemma frame_set__tree g w : f (this (set__tree g w)) = f (this w).
Proof. apply f_tree. Qed.

Lemma frame_set__provider g w : f (this (set__provider g w)) = f (this w).
Proof. apply f_provider. Qed.

Lemma frame_run_listener w s : f (this (run_listener w s)) = f (this w).
Proof.
  unfold run_listener. destruct (sub_listener s).
  - apply frame_set__provider.
  - unfold set_message, set_title. by rewrite !frame_set__tree.
Qed.

Lemma frame_foldl_run_listener l w :
  f (this (foldl run_listener w l)) = f (this w).
Proof.
  revert w. induction l as [|s l IH]; intros w; [done|].
  cbn [foldl]. by rewrite IH, frame_run_listener.
Qed.

Lemma frame_fire_provider src w : f (this (fire_provider src w)) = f (this w).
Proof. apply frame_foldl_run_listener. Qed.

Lemma frame_setInput_then i m w :
  f (this (SymbolsTree.setInput_then i m w)) = f (this w).
Proof.
  unfold SymbolsTree.setInput_then.
  destruct (negb _); [done|].
  unfold call. cbv beta iota zeta. unfold set__sessionDisposable, set_this.
  cbn [this]. rewrite f_session.
  destruct (match navigation m with Some _ => _ | None => _ end) as [s|];
    [destruct (visible _)|]; unfold reveal, set_message, set_title;
    by rewrite !frame_set__tree.
Qed.

Lemma frame_update_then p v w :
  f (this (TreeDataProviderDelegate.update_then p v w)) = f (this w).
Proof.
  unfold TreeDataProviderDelegate.update_then.
  destruct (decide _); [|done]. destruct v; try done.
  unfold call. cbv beta iota zeta.
  unfold TreeDataProviderDelegate.set__sessionDispoables.
  by rewrite frame_set__provider.
Qed.

Lemma frame_run_job j w : f (this (run_job j w)) = f (this w).
Proof.
  destruct j as [[q|i q|p q|q|i q] [v|e]]; try reflexivity;
    try (destruct v; reflexivity).
  - destruct v; try reflexivity. apply frame_setInput_then.
  - apply frame_update_then.
  - apply frame_set__provider.
Qed.

Lemma frame_tick w : f (this (tick w)) = f (this w).
Proof.
  unfold tick. destruct (jobs (rt w)) as [|j js]; [done|].
  by rewrite frame_run_job.
Qed.

Lemma frame_update p w :
  f (this (TreeDataProviderDelegate.update p w)) = f (this w).
Proof.
  unfold TreeDataProviderDelegate.update, call. cbv beta iota zeta.
  cbn [this]. unfold TreeDataProviderDelegate.set_provider,
    TreeDataProviderDelegate.fire, TreeDataProviderDelegate.set__sessionDispoables.
  by rewrite !frame_set__provider.
Qed.

(** The events that are no call of a method leave the field as it is. *)
Lemma frame_step w e :
  f (this (step w e)) =
  match e with
  | SetInput i => f (this (SymbolsTree.setInput i w))
  | Refind item => f (this (SymbolsTree.setInput (input item) w))
  | ClearInput => f (this (SymbolsTree.clearInput w))
  | Dispose => f (this (SymbolsTree.dispose w))
  | ClearHistory => f (this (TreeInputHistory.clear w))
  | _ => f (this w)
  end.
Proof.
  destruct e as [i| | | |item|p o| |p|b]; try reflexivity.
  - apply frame_tick.
  - apply frame_fire_provider.
  - apply frame_set__tree.
Qed.

End frame.

(** ** The current input and the flag [hasResult] *)

Lemma input_step w e :
  (SymbolsTree.getInput (step w e), hasResult (step w e)) =
  match e with
  | SetInput i => (Some i, Some true)
  | Refind item => (Some (input item), Some true)
  | ClearInput => (None, Some false)
  | _ => (SymbolsTree.getInput w, hasResult w)
  end.
Proof.
  unfold SymbolsTree.getInput, hasResult.
  rewrite (frame_step (fun t => (_input t, ctx_value (_ctxHasResult t))))
    by reflexivity.
  destruct e as [i| | | |item|p o| |p|b]; try reflexivity.
  - unfold SymbolsTree.clearInput, call. cbv beta iota zeta.
    case_match; reflexivity.
  - unfold TreeInputHistory.clear.
    by rewrite (frame_fire_provider (fun t => (_input t, ctx_value (_ctxHasResult t))))
      by reflexivity.
Qed.

(** X1.  The current input changes in the calls of [setInput] (also by the
    refind command) and [clearInput] only, never in a job or a listener; the
    flag [hasResult] changes with it, so that in every state a controller
    reaches the flag is true exactly when there is a current input. *)
Theorem input_tracked_by_hasResult (es : list Event) :
  (forall w e,
     (SymbolsTree.getInput (step w e), hasResult (step w e)) =
     match e with
     | SetInput i => (Some i, Some true)
     | Refind item => (Some (input item), Some true)
     | ClearInput => (None, Some false)
     | _ => (SymbolsTree.getInput w, hasResult w)
     end) /\
  (hasResult (run init es) = Some true <-> is_Some (SymbolsTree.getInput (run init es))).
Proof.
  split; [apply input_step|].
  assert (H : forall w,
             (hasResult w = Some true <-> is_Some (SymbolsTree.getInput w)) ->
             hasResult (run w es) = Some true
             <-> is_Some (SymbolsTree.getInput (run w es))).
  { induction es as [|e es IH]; intros w Hw; [done|].
    rewrite run_cons. apply IH.
    pose proof (input_step w e) as Hs.
    pose proof (f_equal fst Hs) as H1. pose proof (f_equal snd Hs) as H2.
    cbn [fst snd] in H1, H2. rewrite H1, H2.
    destruct e; try done; split; (try done); intros [? [=]]. }
  apply H. split; [done|]. intros [? [=]].
Qed.

(** ** The history and the flag [hasHistory] *)

Lemma history_step w e :
  _history (this (step w e)) =
  match e with
  | SetInput i => _history (this (TreeInputHistory.add i w))
  | Refind item => _history (this (TreeInputHistory.add (input item) w))
  | ClearHistory =>
      mkHistory (emitter_fire (_onDidChangeTreeData (_history (this w))))
                (ContextKey_set false (_ctxHasHistory (_history (this w)))) []
  | _ => _history (this w)
  end.
Proof.
  rewrite (frame_step _history) by reflexivity.
  destruct e as [i| | | |item|p o| |p|b]; try reflexivity.
  - unfold SymbolsTree.clearInput, call. cbv beta iota zeta.
    case_match; reflexivity.
  - unfold TreeInputHistory.clear.
    by rewrite (frame_fire_provider _history) by reflexivity.
Qed.

Lemma history_after_add i w :
  hasHistory (TreeInputHistory.add i w) = Some true /\
  1 <= TreeInputHistory.size (TreeInputHistory.add i w).
Proof.
  split; [reflexivity|].
  unfold TreeInputHistory.size. rewrite inputs_add.
  pose proof (elem_of_map_set (hash i) (S (fresh (rt w)))
                (map_delete (hash i) (_inputs (_history (this w))))) as H.
  destruct (map_set _ _ _); [by apply elem_of_nil in H|cbn; lia].
Qed.

(** X2.  The history changes in [add] (called by [setInput], also for the
    refind command) and in [clear] only.  [add] sets the flag [hasHistory]
    and leaves at least one entry, [clear] resets the flag and leaves none;
    so in every state a controller reaches the flag is true exactly when the
    history has an entry. *)
Theorem hasHistory_tracks_size (es : list Event) :
  (forall w e,
     _history (this (step w e)) =
     match e with
     | SetInput i => _history (this (TreeInputHistory.add i w))
     | Refind item => _history (this (TreeInputHistory.add (input item) w))
     | ClearHistory =>
         mkHistory (emitter_fire (_onDidChangeTreeData (_history (this w))))
                   (ContextKey_set false (_ctxHasHistory (_history (this w)))) []
     | _ => _history (this w)
     end) /\
  (hasHistory (run init es) = Some true <-> 1 <= TreeInputHistory.size (run init es)).
Proof.
  split; [apply history_step|].
  assert (H : forall w,
             (hasHistory w = Some true <-> 1 <= TreeInputHistory.size w) ->
             hasHistory (run w es) = Some true
             <-> 1 <= TreeInputHistory.size (run w es)).
  { induction es as [|e es IH]; intros w Hw; [done|].
    rewrite run_cons. apply IH.
    unfold hasHistory, TreeInputHistory.size in *. rewrite history_step.
    destruct e as [i| | | |item|p o| |p|b]; try done.
    - pose proof (history_after_add i w) as [H1 H2].
      unfold hasHistory, TreeInputHistory.size in *. by rewrite H1.
    - cbn. split; [done|lia].
    - pose proof (history_after_add (input item) w) as [H1 H2].
      unfold hasHistory, TreeInputHistory.size in *. by rewrite H1. }
  apply H. cbn. split; [done|lia].
Qed.

(** ** The event [onDidChangeInput] *)

Lemma onDidChangeInput_step w e :
  _onDidChangeInput (this (step w e)) =
  match e with
  | Dispose => emitter_dispose (_onDidChangeInput (this w))
  | _ => _onDidChangeInput (this w)
  end.
Proof.
  rewrite (frame_step _onDidChangeInput) by reflexivity.
  destruct e as [i| | | |item|p o| |p|b]; try reflexivity.
  - unfold SymbolsTree.clearInput, call. cbv beta iota zeta.
    case_match; reflexivity.
  - unfold TreeInputHistory.clear.
    by rewrite (frame_fire_provider _onDidChangeInput) by reflexivity.
Qed.

(** X3.  The controller never fires its event [onDidChangeInput]: an event
    of the controller changes the emitter only by disposing of it
    ([dispose()]), so whatever happens after the creation of the controller,
    the emitter has fired no time, [setInput] and [clearInput] included. *)
Theorem onDidChangeInput_never_fires (es : list Event) :
  (forall w e,
     _onDidChangeInput (this (step w e)) =
     match e with
     | Dispose => emitter_dispose (_onDidChangeInput (this w))
     | _ => _onDidChangeInput (this w)
     end) /\
  fired (_onDidChangeInput (this (run init es))) = 0 /\
  (emitter_disposed (_onDidChangeInput (this (run init es))) = true
   <-> Dispose ∈ es).
Proof.
  split; [apply onDidChangeInput_step|].
  assert (H : forall w,
             fired (_onDidChangeInput (this (run w es)))
             = fired (_onDidChangeInput (this w)) /\
             (emitter_disposed (_onDidChangeInput (this (run w es))) = true
              <-> emitter_disposed (_onDidChangeInput (this w)) = true
                  \/ Dispose ∈ es)).
  { induction es as [|e es IH]; intros w.
    - split; [done|]. rewrite elem_of_nil. cbn. tauto.
    - rewrite run_cons. destruct (IH (step w e)) as [H1 H2].
      rewrite H1, H2, onDidChangeInput_step, elem_of_cons.
      destruct e; cbn; (split; [done|]); try (split; [intros [?|?]; auto|];
        intros [?|[[=]|?]]; auto); tauto. }
  destruct (H init) as [H1 H2]. split; [exact H1|].
  rewrite H2. cbn. split; [intros [[=]|?]; done|auto].
Qed.

(** ** [clear] of the history *)

Lemma rt_foldl_run_listener l w : rt (foldl run_listener w l) = rt w.
Proof.
  revert w. induction l as [|s l IH]; intros w; [done|].
  cbn [foldl]. rewrite IH. unfold run_listener. by destruct (sub_listener s).
Qed.

Lemma delegate_fired_foldl_run_listener l w :
  delegate_fired (foldl run_listener w l) = delegate_fired w + relays l.
Proof.
  revert w. induction l as [|s l IH]; intros w; [cbn; lia|].
  cbn [foldl relays]. rewrite IH. unfold run_listener, delegate_fired.
  destruct (sub_listener s); cbn; lia.
Qed.

Lemma tree_foldl_run_listener l w :
  (forall s, s ∈ l -> sub_listener s = DelegateFire) ->
  _tree (this (foldl run_listener w l)) = _tree (this w).
Proof.
  revert w. induction l as [|s l IH]; intros w Hl; [done|].
  cbn [foldl]. rewrite IH by (intros s' Hs'; by apply Hl, list_elem_of_further).
  unfold run_listener. by rewrite (Hl s) by apply list_elem_of_here.
Qed.

Lemma rt_fire_provider src w : rt (fire_provider src w) = rt w.
Proof. apply rt_foldl_run_listener. Qed.

Lemma delegate_fired_fire_provider src w :
  delegate_fired (fire_provider src w)
  = delegate_fired w + relays (listeners_of src w).
Proof. apply delegate_fired_foldl_run_listener. Qed.

Lemma tree_fire_provider src w :
  (forall s, s ∈ listeners_of src w -> sub_listener s = DelegateFire) ->
  _tree (this (fire_provider src w)) = _tree (this w).
Proof. apply tree_foldl_run_listener. Qed.

(** X4.  [clear()] of the history, in any state: the map is empty, so
    [getChildren()] is fulfilled with no item; the flag [hasHistory] is
    false; the change event of the history fired once, which calls each
    listener registered on the history, and each registration of the
    delegate relays it.  The promises, the jobs and the registrations are as
    they were, and so are the current input and the stored provider of the
    delegate; the view is as it was when only the delegate listens to the
    history: the message of a view that shows the history is not set to
    ['Nothing to show']. *)
Theorem history_clear (w : World) :
  let w' := TreeInputHistory.clear w in
  TreeInputHistory.size w' = 0 /\
  promise_all (heap (rt w')) (TreeInputHistory.getChildren w') = AllFulfilled [] /\
  hasHistory w' = Some false /\
  fired (_onDidChangeTreeData (_history (this w')))
  = S (fired (_onDidChangeTreeData (_history (this w)))) /\
  delegate_fired w' = delegate_fired w + relays (listeners_of HistoryProvider w) /\
  rt w' = rt w /\
  SymbolsTree.getInput w' = SymbolsTree.getInput w /\
  stored_provider w' = stored_provider w /\
  ((forall s, s ∈ listeners_of HistoryProvider w -> sub_listener s = DelegateFire) ->
   _tree (this w') = _tree (this w)).
Proof.
  cbv zeta. unfold TreeInputHistory.clear.
  set (w0 := set__history _ _).
  change (listeners_of HistoryProvider w) with (listeners_of HistoryProvider w0).
  assert (Hh : _history (this (fire_provider HistoryProvider w0))
               = _history (this w0))
    by (by rewrite (frame_fire_provider _history) by reflexivity).
  unfold TreeInputHistory.size, TreeInputHistory.getChildren, hasHistory,
    SymbolsTree.getInput.
  rewrite Hh, rt_fire_provider, delegate_fired_fire_provider,
    stored_provider_fire_provider.
  rewrite (frame_fire_provider _input) by reflexivity.
  repeat split; try reflexivity.
  intros Hl. by rewrite tree_fire_provider.
Qed.

(** ** The size of the history *)

Lemma length_filter_other_keys key (m : list (string * ref)) :
  NoDup (map fst m) ->
  length (filter (fun x => x.1 <> key) m)
  = if decide (key ∈ map fst m) then pred (length m) else length m.
Proof.
  induction m as [|[k u] m IH]; [done|].
  cbn [map fst]. rewrite NoDup_cons. intros [Hk Hm].
  destruct (decide (k = key)) as [->|Hne].
  - rewrite filter_cons_False by (cbn; tauto).
    rewrite filter_other_keys by done.
    by rewrite decide_True by apply list_elem_of_here.
  - rewrite filter_cons_True by done. cbn [length]. rewrite IH by done.
    destruct (decide (key ∈ map fst m)) as [Hin|Hin].
    + rewrite decide_True by by apply list_elem_of_further.
      destruct m; [by apply elem_of_nil in Hin|done].
    + rewrite decide_False; [done|].
      rewrite elem_of_cons. intros [->|?]; done.
Qed.

(** X5.  In a history with one entry per key, [add(input)] adds one to the
    size when the hash of the input is new and leaves the size as it is when
    an entry has this hash; [setInput] and the refind command change the size
    in this way, since they call [add] once and touch the history nowhere
    else. *)
Theorem size_after_add (w : World) (i : SymbolTreeInput) :
  NoDup (map fst (_inputs (_history (this w)))) ->
  TreeInputHistory.size (TreeInputHistory.add i w)
  = (if decide (hash i ∈ map fst (_inputs (_history (this w))))
     then TreeInputHistory.size w else S (TreeInputHistory.size w)) /\
  TreeInputHistory.size (SymbolsTree.setInput i w)
  = TreeInputHistory.size (TreeInputHistory.add i w) /\
  (forall item,
     input item = i ->
     TreeInputHistory.size (step w (Refind item))
     = TreeInputHistory.size (TreeInputHistory.add i w)).
Proof.
  intros Hm. split; [|split; [reflexivity|by intros item <-]].
  unfold TreeInputHistory.size.
  rewrite inputs_add, map_delete_set by done.
  rewrite length_app, length_filter_other_keys by done. cbn [length].
  destruct (decide _) as [Hin|]; [|lia].
  destruct (_inputs (_history (this w))); [by apply elem_of_nil in Hin|cbn; lia].
Qed.

Lemma size_after_add_witness :
  NoDup (map fst (_inputs (_history (this (TreeInputHistory.add sampleX init))))) /\
  TreeInputHistory.size
    (TreeInputHistory.add sampleX (TreeInputHistory.add sampleX init))
  = (if decide (hash sampleX
                ∈ map fst (_inputs (_history (this (TreeInputHistory.add sampleX init)))))
     then TreeInputHistory.size (TreeInputHistory.add sampleX init)
     else S (TreeInputHistory.size (TreeInputHistory.add sampleX init))).
Proof.
  assert (H : NoDup (map fst (_inputs (_history
                (this (TreeInputHistory.add sampleX init))))))
    by (vm_compute; apply NoDup_singleton).
  split; [exact H|].
  exact (proj1 (size_after_add (TreeInputHistory.add sampleX init) sampleX H)).
Defined.

(** ** What [setInput] does before it returns *)

(** X6.  [setInput(input)], in any state, before any promise settles: the
    input is the current one; the flags [isActive], [hasResult] and
    [hasHistory] are true; the view has the title of the input and no
    message; the focus command of the view was executed once; the document
    of the input is being opened for the history and [input.resolve()] was
    called once, its promise carrying the two continuations of [setInput] in
    the order of the source; the delegate stores the promise of the provider
    of the model, has fired its change event once and has no listener
    registered.  No job was added to the queue.  The session disposable was
    disposed of and is still referenced by the controller: its listeners are
    removed and its providers disposed of, and the object holds nothing any
    more. *)
Theorem setInput_synchronous (w : World) (i : SymbolTreeInput) :
  let w' := SymbolsTree.setInput i w in
  let f := fresh (rt w) in
  SymbolsTree.getInput w' = Some i /\
  (isActive w', hasResult w', hasHistory w') = (Some true, Some true, Some true) /\
  view_of w' = (Some (title i), None) /\
  commands (rt w') = (commands (rt w) ++ ["references-view.tree.focus"])%list /\
  heap (rt w') !! f
  = Some (mkPromise (OpenTextDocumentCall (uri i)) None [HistoryThen i (1 + f)]) /\
  heap (rt w') !! (2 + f)
  = Some (mkPromise (ResolveCall i) None
            [ProviderOf (3 + f); SetInputThen i (6 + f)]) /\
  heap (rt w') !! (3 + f)
  = Some (mkPromise Chained None [DelegateThen (3 + f) (4 + f)]) /\
  heap (rt w') !! (4 + f)
  = Some (mkPromise Chained None [DelegateCatch (5 + f)]) /\
  fresh (rt w') = 7 + f /\
  stored_provider w' = Some (3 + f) /\
  updated w' = (updated w ++ [3 + f])%list /\
  delegate_fired w' = S (delegate_fired w) /\
  _sessionDispoables (_provider (this w')) = None /\
  jobs (rt w') = jobs (rt w) /\
  _sessionDisposable (this w') = disposed_of (_sessionDisposable (this w)) /\
  subs (rt w')
  = filter (fun s => sub_id s ∉ cleanup_subs
                       (default [] (_sessionDispoables (_provider (this w)))))
      (filter (fun s => sub_id s ∉ cleanup_subs
                          (default [] (_sessionDisposable (this w))))
         (subs (rt w))) /\
  disposed (rt w')
  = ((disposed (rt w)
        ++ cleanup_providers (default [] (_sessionDisposable (this w))))
       ++ cleanup_providers (default [] (_sessionDispoables (_provider (this w)))))%list /\
  revealed (_tree (this w')) = revealed (_tree (this w)).
Proof.
  destruct_world w. cbn zeta.
  cbn [this rt fresh jobs commands updated _sessionDisposable _tree revealed
       _provider _sessionDispoables subs disposed].
  eval_call (SymbolsTree.setInput i
    (mkWorld
       (mkSymbolsTree c_changed c_active c_result
          (mkHistory h_changed h_flag h_inputs)
          (mkDelegate d_provider d_session d_emitter d_event)
          (mkTreeView v_title v_message v_visible v_revealed v_disposed)
          c_input c_session)
       (mkRuntime r_heap r_fresh r_jobs r_subs r_disposed r_console r_commands)
       w_updated)).
  cbn. repeat split; try reflexivity; heap_lookup.
Qed.

(** ** A fulfilment that arrives late *)

(** X7.  After [update(p1)] and [update(p2)], the fulfilment of [p1] changes
    nothing in the delegate: [p2] stays the stored provider, no listener is
    registered on the value of [p1] and nothing is logged.  When [p2] is
    fulfilled, the delegate registers one listener on its value and keeps the
    disposable of the registration.  The change event of the delegate fired
    once in each call of [update] and in no job: a fulfilment does not fire
    it. *)
Theorem stale_fulfilment_ignored (w : World) (p1 p2 : ref) (s1 s2 : Source)
    (v1 v2 : Provider) :
  jobs (rt w) = [] ->
  heap (rt w) !! p1 = Some (mkPromise s1 None []) ->
  heap (rt w) !! p2 = Some (mkPromise s2 None []) ->
  p1 <> p2 -> p1 < fresh (rt w) -> p2 < fresh (rt w) ->
  let w2 := update_all [p1; p2] w in
  let w3 := run (exec (settle p1 (Fulfilled (VProvider v1))) w2) [Tick; Tick] in
  let w4 := run (exec (settle p2 (Fulfilled (VProvider v2))) w3) [Tick; Tick] in
  stored_provider w3 = Some p2 /\
  _sessionDispoables (_provider (this w3)) = None /\
  subs (rt w3) = subs (rt w2) /\
  console (rt w3) = console (rt w) /\
  jobs (rt w3) = [] /\
  stored_provider w4 = Some p2 /\
  _sessionDispoables (_provider (this w4)) = Some [Unsubscribe (4 + fresh (rt w))] /\
  subs (rt w4)
  = (subs (rt w2) ++ [mkSubscription (4 + fresh (rt w)) v2 DelegateFire])%list /\
  console (rt w4) = console (rt w) /\
  jobs (rt w4) = [] /\
  delegate_fired w2 = 2 + delegate_fired w /\
  delegate_fired w4 = delegate_fired w2.
Proof.
  intros Hj H1 H2 Hne Hlt1 Hlt2.
  destruct_world w. cbn in Hj, H1, H2, Hlt1, Hlt2. subst.
  cbn zeta. cbn [rt fresh console Nat.add]. unfold update_all. cbn [foldl].
  match goal with
  | |- context [TreeDataProviderDelegate.update p1 ?w] =>
      eval_call (TreeDataProviderDelegate.update p1 w)
  end.
  match goal with
  | |- context [TreeDataProviderDelegate.update p2 ?w] =>
      eval_call (TreeDataProviderDelegate.update p2 w)
  end.
  match goal with
  | |- context [exec (settle p1 ?o) ?w] => eval_call (exec (settle p1 o) w)
  end.
  eval_inner.
  do 5 (split; [reflexivity|]).
  match goal with
  | |- context [exec (settle p2 ?o) ?w] => eval_call (exec (settle p2 o) w)
  end.
  eval_inner.
  repeat split; reflexivity.
Qed.

Lemma stale_fulfilment_ignored_witness :
  stored_provider
    (run (exec (settle 3 (Fulfilled (VProvider HistoryProvider)))
            (update_all [3; 4] samplePending))
         [Tick; Tick])
  = Some 4.
Proof.
  destruct two_pending as (Hj & H1 & H2 & Hne & Hlt1 & Hlt2).
  pose proof (stale_fulfilment_ignored samplePending 3 4 _ _ HistoryProvider
                HistoryProvider Hj H1 H2 Hne Hlt1 Hlt2) as H.
  cbv zeta in H.
  exact (proj1 H).
Defined.

(** ** The resolution of the current input *)

(** X8.  [setInput(x)] with an empty job queue, then [x.resolve()] is
    fulfilled with the model [m] and the four jobs this causes run.  The view
    has the title of [x] and the message of [m].  The item nearest to the
    position of [x] is revealed if the model has a navigation that finds one
    and the view is visible, and nothing is revealed otherwise.  Two
    listeners were added to the provider of [m], first the one that refreshes
    title and message, then that of the delegate; the session disposable of
    the controller removes the first and disposes of the provider if the
    provider has a [dispose] function, the one of the delegate removes the
    second.  The queue is empty again. *)
Theorem setInput_resolved (w : World) (x : SymbolTreeInput) (m : SymbolTreeModel) :
  jobs (rt w) = [] ->
  let f := fresh (rt w) in
  let p := model_provider m in
  let selection :=
    match navigation m with
    | Some nav => nearest nav (uri x) (position x)
    | None => None
    end in
  let w0 := SymbolsTree.setInput x w in
  let w1 :=
    run w [SetInput x; Settle (2 + f) (Fulfilled (VModel m));
           Tick; Tick; Tick; Tick] in
  SymbolsTree.getInput w1 = Some x /\
  view_of w1 = (Some (title x), model_message m) /\
  revealed (_tree (this w1))
  = (revealed (_tree (this w))
       ++ match selection with
          | Some s => if visible (_tree (this w)) then [s] else []
          | None => []
          end)%list /\
  subs (rt w1)
  = (subs (rt w0)
       ++ [mkSubscription (7 + f) (ModelProvider p) (Refresh x m);
           mkSubscription (8 + f) (ModelProvider p) DelegateFire])%list /\
  _sessionDisposable (this w1)
  = Some (Unsubscribe (7 + f) :: if has_dispose p then [DisposeProvider p] else []) /\
  _sessionDispoables (_provider (this w1)) = Some [Unsubscribe (8 + f)] /\
  stored_provider w1 = Some (3 + f) /\
  heap (rt w1) !! (3 + f)
  = Some (mkPromise Chained (Some (Fulfilled (VProvider (ModelProvider p)))) []) /\
  disposed (rt w1) = disposed (rt w0) /\
  delegate_fired w1 = delegate_fired w0 /\
  jobs (rt w1) = [].
Proof.
  intros Hj. destruct_world w. cbn in Hj. subst.
  cbn zeta. cbn [rt fresh this _tree revealed visible Nat.add].
  destruct m as [msg [pp hd] nav hl].
  cbn [model_provider has_dispose model_message navigation].
  remember (match nav with
            | Some nv => nearest nv (uri x) (position x)
            | None => None
            end) as sel eqn:Hsel.
  symmetry in Hsel.
  match goal with
  | |- context [SymbolsTree.setInput x ?w] => eval_call (SymbolsTree.setInput x w)
  end.
  destruct sel as [s|], v_visible, hd.
  all: eval_inner.
  all: cbn; rewrite ?app_nil_r; repeat split; try reflexivity;
    first [ by rewrite <- app_assoc | heap_lookup ].
Qed.

Lemma setInput_resolved_witness :
  view_of
    (run init [SetInput sampleX; Settle (2 + fresh (rt init)) (Fulfilled (VModel sampleModel));
               Tick; Tick; Tick; Tick])
  = (Some (title sampleX), model_message sampleModel).
Proof.
  pose proof (setInput_resolved init sampleX sampleModel eq_refl) as H.
  cbv zeta in H.
  exact (proj1 (proj2 H)).
Defined.

(** ** The provider of a session after the session *)

Lemma option_match_same {A B} (o : option A) (x : B) :
  match o with Some _ => x | None => x end = x.
Proof. by destruct o. Qed.

Ltac sym' := repeat first [ sym1 | mem1 | rewrite option_match_same ].

Ltac run1' :=
  rewrite run_cons; unfold step at 1; try unfold tick at 1;
  unfold_ops; try unfold fire_provider; try unfold SymbolsTree.dispose; sym'.

Ltac eval_run' := repeat run1'; rewrite ?run_nil.

(** Evaluates the innermost [run] on an explicit world, provider events
    included. *)
Ltac eval_inner' :=
  match goal with
  | |- context [run (mkWorld ?t ?r ?u) (?e :: ?l)] =>
      let E := fresh "E" in
      eassert (E : run (mkWorld t r u) (e :: l) = _)
        by (eval_run'; etransitivity; [apply world_eta | cbn; reflexivity]);
      rewrite !E; clear E
  end.

(** X9.  In a new controller, [setInput(x)], the resolution of [x] with the
    model [m], then [setInput(y)]: when the second call returns, the two
    listeners on the provider of [m] are removed and the provider is disposed
    of if it has a [dispose] function; a change event of that provider
    changes nothing any more.  The controller still references the session
    disposable of [x], which holds nothing: until [y] is resolved, one more
    [setInput] disposes of no provider and removes no listener. *)
Theorem old_provider_ignored (x y z : SymbolTreeInput) (m : SymbolTreeModel) :
  let p := model_provider m in
  let w1 :=
    run init [SetInput x; Settle 5 (Fulfilled (VModel m)); Tick; Tick; Tick; Tick] in
  let w2 := run w1 [SetInput y] in
  let w3 := run w2 [Fire p] in
  let w4 := run w2 [SetInput z] in
  _sessionDisposable (this w1)
  = Some (Unsubscribe 10 :: if has_dispose p then [DisposeProvider p] else []) /\
  subs (rt w2) = [] /\
  disposed (rt w2) = (if has_dispose p then [pid p] else []) /\
  w3 = w2 /\
  _sessionDisposable (this w2) = Some [] /\
  disposed (rt w4) = disposed (rt w2) /\
  subs (rt w4) = [].
Proof.
  destruct m as [msg [pp hd] nav hl].
  cbn zeta. cbn [model_provider has_dispose model_message].
  unfold_init.
  destruct hd.
  all: eval_inner'.
  all: split; [reflexivity|].
  all: eval_inner'.
  all: do 2 (split; [reflexivity|]).
  all: split; [eval_inner'; reflexivity|].
  all: split; [reflexivity|].
  all: eval_inner'; split; reflexivity.
Qed.

(** X10.  [dispose()] of the controller disposes of the view and of the
    emitter of [onDidChangeInput] and of nothing else: it is idempotent, and
    it leaves the session alone.  After [setInput(x)], the resolution of [x]
    with the model [m] and [dispose()], the listeners on the provider of [m]
    are still registered and the provider is not disposed of; when it fires
    its change event, the delegate still relays the event to the disposed
    view. *)
Theorem dispose_keeps_session (w : World) (x : SymbolTreeInput) (m : SymbolTreeModel) :
  let p := model_provider m in
  let w1 :=
    run init [SetInput x; Settle 5 (Fulfilled (VModel m)); Tick; Tick; Tick; Tick] in
  let w2 := run w1 [Visible true; Dispose] in
  SymbolsTree.dispose (SymbolsTree.dispose w) = SymbolsTree.dispose w /\
  rt (SymbolsTree.dispose w) = rt w /\
  view_disposed (_tree (this (SymbolsTree.dispose w))) = true /\
  emitter_disposed (_onDidChangeInput (this (SymbolsTree.dispose w))) = true /\
  subs (rt w2) = subs (rt w1) /\
  disposed (rt w2) = [] /\
  _sessionDisposable (this w2) = _sessionDisposable (this w1) /\
  relays (listeners_of (ModelProvider p) w2) = 1 /\
  delegate_fired (run w2 [Fire p]) = S (delegate_fired w2).
Proof.
  cbv zeta. do 4 (split; [reflexivity|]).
  destruct m as [msg [pp hd] nav hl].
  cbn [model_provider has_dispose model_message].
  unfold_init.
  destruct hd.
  all: eval_inner'.
  all: eval_inner'.
  all: do 3 (split; [reflexivity|]).
  all: split; [unfold listeners_of; cbn; by rewrite Nat.eqb_refl|].
  all: eval_inner'; reflexivity.
Qed.

(** ** The same input set twice *)

(** X11.  The guard of [setInput] compares input objects, not calls.  In a
    new controller, [setInput(x)] twice with the same object [x] (as the
    refind command does for an input that is being resolved), then the
    first call of [x.resolve()] is fulfilled with [m1] and the second with
    [m2].  The continuation of the first call takes [x] for current: it shows
    the message of [m1] and registers its listener on the provider of [m1],
    whereas the delegate, whose guard compares promises, ignores that
    provider.  The continuation of the second call replaces the session
    disposable without disposing of it, so the listener of the first call is
    referenced nowhere.  A later [setInput(y)] removes the listeners of the
    second call only; and when the provider of [m1] then fires its change
    event, the view shows the title of [x] and the message of [m1] while the
    current input is [y]. *)
Theorem same_input_twice (x y : SymbolTreeInput) (m1 m2 : SymbolTreeModel) :
  let p1 := model_provider m1 in
  let p2 := model_provider m2 in
  let w1 :=
    run init [SetInput x; SetInput x; Settle 5 (Fulfilled (VModel m1));
              Tick; Tick; Tick; Tick] in
  let w2 := run w1 [Settle 12 (Fulfilled (VModel m2)); Tick; Tick; Tick; Tick] in
  let w3 := run w2 [SetInput y] in
  let w4 := run w3 [Fire p1] in
  view_of w1 = (Some (title x), model_message m1) /\
  _sessionDispoables (_provider (this w1)) = None /\
  subs (rt w1) = [mkSubscription 17 (ModelProvider p1) (Refresh x m1)] /\
  view_of w2 = (Some (title x), model_message m2) /\
  subs (rt w2)
  = [mkSubscription 17 (ModelProvider p1) (Refresh x m1);
     mkSubscription 18 (ModelProvider p2) (Refresh x m2);
     mkSubscription 19 (ModelProvider p2) DelegateFire] /\
  _sessionDisposable (this w2)
  = Some (Unsubscribe 18 :: if has_dispose p2 then [DisposeProvider p2] else []) /\
  subs (rt w3) = [mkSubscription 17 (ModelProvider p1) (Refresh x m1)] /\
  disposed (rt w3) = (if has_dispose p2 then [pid p2] else []) /\
  view_of w3 = (Some (title y), None) /\
  SymbolsTree.getInput w4 = Some y /\
  view_of w4 = (Some (title x), model_message m1).
Proof.
  destruct m1 as [msg1 [pp1 hd1] nav1 hl1], m2 as [msg2 [pp2 hd2] nav2 hl2].
  cbn zeta. cbn [model_provider has_dispose model_message].
  unfold_init.
  destruct hd1, hd2.
  all: eval_inner'.
  all: do 3 (split; [reflexivity|]).
  all: eval_inner'.
  all: do 3 (split; [reflexivity|]).
  all: eval_inner'.
  all: do 3 (split; [reflexivity|]).
  all: eval_inner'.
  all: split; reflexivity.
Qed.

(** ** A resolution that fails *)

(** X12.  [setInput(x)] with an empty job queue, then [x.resolve()] is
    rejected with [e] and the four jobs this causes run.  The controller
    shows no sign of the failure: [x] is still the current input, the flag
    [hasResult] is true, the view has the title of [x] and no message.  The
    delegate has logged [e] once and stores no provider, so that its
    accessors fail; no listener was registered.  The promise of the second
    continuation of [setInput] is rejected with [e] and nothing handles
    it. *)
Theorem setInput_rejected (w : World) (x : SymbolTreeInput) (e : Error) :
  jobs (rt w) = [] ->
  let f := fresh (rt w) in
  let w0 := SymbolsTree.setInput x w in
  let w1 :=
    run w [SetInput x; Settle (2 + f) (Rejected e); Tick; Tick; Tick; Tick] in
  SymbolsTree.getInput w1 = Some x /\
  hasResult w1 = Some true /\
  view_of w1 = (Some (title x), None) /\
  accessors_fail w1 /\
  console (rt w1) = (console (rt w) ++ [e])%list /\
  subs (rt w1) = subs (rt w0) /\
  _sessionDisposable (this w1) = _sessionDisposable (this w0) /\
  heap (rt w1) !! (6 + f) = Some (mkPromise Chained (Some (Rejected e)) []) /\
  jobs (rt w1) = [].
Proof.
  intros Hj. destruct_world w. cbn in Hj. subst.
  cbn zeta. cbn [rt fresh this console _sessionDisposable Nat.add].
  match goal with
  | |- context [SymbolsTree.setInput x ?w] => eval_call (SymbolsTree.setInput x w)
  end.
  eval_inner.
  do 3 (split; [reflexivity|]).
  split; [by apply accessors_fail_iff|].
  cbn. repeat split; try reflexivity; heap_lookup.
Qed.

Lemma setInput_rejected_witness :
  accessors_fail
    (run init [SetInput sampleX; Settle (2 + fresh (rt init)) (Rejected "boom");
               Tick; Tick; Tick; Tick]).
Proof.
  pose proof (setInput_rejected init sampleX "boom" eq_refl) as H.
  cbv zeta in H.
  exact (proj1 (proj2 (proj2 (proj2 H)))).
Defined.

(** ** The history cleared while the view shows it *)

(** X13.  In a new controller, [setInput(x)], then [clearInput()] and the two
    jobs it causes: the delegate listens to the history.  When the history
    is then cleared, the delegate relays the change event once, the history
    has no entry and its flag is false; the message of the view is still
    unset, ['Nothing to show'] being written by [clearInput] only. *)
Theorem clearHistory_while_shown (x : SymbolTreeInput) :
  let w1 := run init [SetInput x; ClearInput; Tick; Tick] in
  let w2 := run w1 [ClearHistory] in
  stored_provider w1 = Some 10 /\
  heap (rt w1) !! 10
  = Some (mkPromise Chained (Some (Fulfilled (VProvider HistoryProvider))) []) /\
  subs (rt w1) = [mkSubscription 13 HistoryProvider DelegateFire] /\
  view_of w1 = (Some "References", None) /\
  delegate_fired w2 = S (delegate_fired w1) /\
  TreeInputHistory.size w2 = 0 /\
  hasHistory w2 = Some false /\
  view_of w2 = (Some "References", None).
Proof.
  cbn zeta. unfold_init.
  eval_inner'.
  split; [reflexivity|]. split; [cbn; heap_lookup|].
  do 2 (split; [reflexivity|]).
  rewrite run_cons, run_nil. unfold step, TreeInputHistory.clear.
  rewrite delegate_fired_fire_provider.
  repeat split; reflexivity.
Qed.
